(** * Coin indexer: the event ingestion engine

    A shallow embedding of [internal/indexer] (the per-contract polling
    loop, block-range chunking, Transfer-event decoding and checkpointing)
    together with the record types of [internal/models].

    Conventions.
    - Go's [uint64] values are integers in [Z]; every arithmetic operation
      of the source that can wrap is followed by [u64].
    - The chain node ([ethclient.Client]) and the relational store (gorm)
      are external collaborators.  The node is a record of answers; the
      store is the pair of tables the indexer touches, with the constraints
      declared by the struct tags of [internal/models].
    - [log.Printf] output is not part of the state. *)

From Stdlib Require Import ZArith String List Lia Bool DecimalString DecimalN.
From Stdlib.Strings Require Import Byte Ascii.
From stdpp Require Import gmap strings list fin_maps.

Open Scope Z_scope.

(** ** Machine integers *)

Definition u64 (x : Z) : Z := x mod 2 ^ 64.

(** [int64(x)] for a [uint64] value [x]: two's complement reinterpretation. *)
Definition int64 (x : Z) : Z := (x + 2 ^ 63) mod 2 ^ 64 - 2 ^ 63.

Definition byteZ (b : byte) : Z := Z.of_N (Byte.to_N b).

#[global] Instance byte_eq_decision : EqDecision byte := Byte.byte_eq_dec.

(** ** go-ethereum [common] *)

Module common.

(** [Hash] is [[32]byte], [Address] is [[20]byte]. *)
Definition Hash := list byte.
Definition Address := list byte.

Definition HashLength : nat := 32.
Definition AddressLength : nat := 20.

(** [BytesToAddress]: if [b] is longer than an address it is cropped
    from the left, otherwise it is left-padded with zero bytes. *)
Definition BytesToAddress (b : list byte) : Address :=
  let b := if bool_decide (AddressLength < length b)%nat
           then drop (length b - AddressLength) b else b in
  replicate (AddressLength - length b) x00 ++ b.

Definition hexDigit (n : N) : ascii :=
  if (n <? 10)%N then ascii_of_N (48 + n) else ascii_of_N (87 + n).

Fixpoint hexEncode (b : list byte) : string :=
  match b with
  | [] => EmptyString
  | c :: b' =>
      String (hexDigit (Byte.to_N c / 16))
        (String (hexDigit (Byte.to_N c mod 16)) (hexEncode b'))
  end.

(** [Hash.Hex]: 0x-prefixed lower-case hexadecimal. *)
Definition HashHex (h : Hash) : string := ("0x" ++ hexEncode h)%string.

End common.

(** [new(big.Int).SetBytes]: the bytes read as a big-endian unsigned
    integer. *)
Definition SetBytes (buf : list byte) : Z :=
  foldl (fun acc b => acc * 256 + byteZ b) 0 buf.

(** [String] of a non-negative [big.Int]: base 10, no sign, no
    leading zeros. *)
Definition bigString (x : Z) : string :=
  NilZero.string_of_uint (N.to_uint (Z.to_N x)).

(** ** go-ethereum [core/types] and [ethereum] *)

Module types.
Record Log := {
  Address : common.Address;
  Topics : list common.Hash;
  Data : list byte;
  BlockNumber : Z;
  TxHash : common.Hash;
  Index : Z
}.
End types.

Module ethereum.
Record FilterQuery := {
  FromBlock : Z;
  ToBlock : Z;
  Addresses : list common.Address;
  Topics : list (list common.Hash)
}.
End ethereum.

Module ethclient.
(** The answers of the node at one moment.  [None] is a returned error.
    [BlockByNumber] gives the [Time] of the header. *)
Record Client := {
  BlockNumber : option Z;
  FilterLogs : ethereum.FilterQuery -> option (list types.Log);
  BlockByNumber : Z -> option Z
}.
End ethclient.

(** ** [internal/models] *)

Module models.

(** The fields the indexer fills in; [ID], [CreatedAt], [UpdatedAt] and
    the price annotations are left to the store. *)
Record Transaction := {
  TxHash : string;
  BlockNumber : Z;
  LogIndex : Z;
  ContractAddress : string;
  TokenName : string;
  FromAddress : string;
  ToAddress : string;
  Amount : string;
  BlockTimestamp : Z
}.

Record BlockProgress := {
  Contract : string;
  LastBlock : Z
}.

End models.

(** ** The store

    [transactions] is the table of [models.Transaction] in insertion order;
    [block_progress] is the table of [models.BlockProgress], keyed by its
    unique [Contract] column.  [history] is a ghost journal, oldest first,
    of the block ranges whose logs were requested from the node and of the
    checkpoint writes. *)

Inductive Call :=
| CallFilterLogs (fromBlock toBlock : Z)
| CallSave (contract : string) (lastBlock : Z).

Record State := {
  transactions : list models.Transaction;
  block_progress : gmap string Z;
  history : list Call
}.

Definition record (c : Call) (s : State) : State :=
  {| transactions := transactions s;
     block_progress := block_progress s;
     history := history s ++ [c] |}.

(** [db.Create(tx)]: [TxHash] carries a unique index, so a row whose hash is
    already present is refused and the table is left as it was. *)
Definition Create (tx : models.Transaction) (s : State) : State * bool :=
  if bool_decide (models.TxHash tx ∈ models.TxHash <$> transactions s)
  then (s, false)
  else ({| transactions := transactions s ++ [tx];
           block_progress := block_progress s;
           history := history s |}, true).

(** [db.Save(&progress)].  gorm is not part of the repository; [Save] is
    given the contract the design gives the Progress Store's [set]: an
    upsert on the [Contract] key, last write wins. *)
Definition Save (p : models.BlockProgress) (s : State) : State :=
  record (CallSave (models.Contract p) (models.LastBlock p))
    {| transactions := transactions s;
       block_progress := <[models.Contract p := models.LastBlock p]> (block_progress s);
       history := history s |}.

(** ** [internal/indexer] *)

Record ContractConfig := {
  Name : string;
  Address : common.Address;
  StartBlock : Z
}.

Inductive error :=
| ErrInvalidTransferEvent
| ErrGetBlock
| ErrSaveTransaction
| ErrFilterLogs
| ErrBlockNumber
| ErrProcessBlocks (fromBlock toBlock : Z) (err : error).

(** Transfer(address,address,uint256) *)
Definition TransferSignature : common.Hash :=
  [xdd; xf2; x52; xad; x1b; xe2; xc8; x9b; x69; xc2; xb0; x68; xfc; x37; x8d; xaa;
   x95; x2b; xa7; xf1; x63; xc4; xa1; x16; x28; xf5; x5a; x4d; xf5; x23; xb3; xef].

(** How a call that contains the chunk loop ends: it returns, or it is
    still [Running] when the fuel given to the loop is spent. *)
Inductive outcome :=
| Running
| Returned (err : option error).

(** What the [select] of [monitorContract] receives: the stop signal, or a
    tick of the timer together with the answers of the node at that time. *)
Inductive Signal :=
| Stop
| Tick (client : ethclient.Client).

(** Where [monitorContract] is once its signals are consumed: blocked in
    [select], inside a tick that does not return, or returned. *)
Inductive status :=
| Waiting
| InTick
| Exited.

Section Indexer.

(** [Address.Hex] (the checksummed rendering of go-ethereum). *)
Variable AddressHex : common.Address -> string.

(** [viper.GetInt("indexing.batch_size")] *)
Variable batch_size : Z.

Definition getLastProcessedBlock (s : State) (address : common.Address) : Z :=
  match block_progress s !! AddressHex address with
  | None => 0
  | Some lastBlock => lastBlock
  end.

Definition updateLastProcessedBlock
    (address : common.Address) (blockNumber : Z) (s : State) : State :=
  Save {| models.Contract := AddressHex address;
          models.LastBlock := blockNumber |} s.

(** The record built from an accepted log and the time of its block. *)
Definition transferRecord
    (config : ContractConfig) (vLog : types.Log) (blockTime : Z)
    : models.Transaction :=
  let fromAddress :=
    common.BytesToAddress (default [] (types.Topics vLog !! 1%nat)) in
  let toAddress :=
    common.BytesToAddress (default [] (types.Topics vLog !! 2%nat)) in
  let amount := SetBytes (take 32 (types.Data vLog)) in
  {| models.TxHash := common.HashHex (types.TxHash vLog);
     models.BlockNumber := types.BlockNumber vLog;
     models.LogIndex := types.Index vLog;
     models.ContractAddress := AddressHex (Address config);
     models.TokenName := Name config;
     models.FromAddress := AddressHex fromAddress;
     models.ToAddress := AddressHex toAddress;
     models.Amount := bigString amount;
     models.BlockTimestamp := int64 blockTime |}.

Definition processTransferEvent
    (client : ethclient.Client) (config : ContractConfig)
    (vLog : types.Log) (s : State) : State * option error :=
  if bool_decide (length (types.Topics vLog) < 3)%nat
     || bool_decide (length (types.Data vLog) < 32)%nat
  then (s, Some ErrInvalidTransferEvent)
  else
    match ethclient.BlockByNumber client (int64 (types.BlockNumber vLog)) with
    | None => (s, Some ErrGetBlock)
    | Some blockTime =>
        match Create (transferRecord config vLog blockTime) s with
        | (s', true) => (s', None)
        | (s', false) => (s', Some ErrSaveTransaction)
        end
    end.

(** The [for _, vLog := range logs] loop of [processBlockRange]: an error
    of [processTransferEvent] is printed and the loop continues. *)
Definition processLogs
    (client : ethclient.Client) (config : ContractConfig)
    (logs : list types.Log) (s : State) : State :=
  foldl (fun s vLog => fst (processTransferEvent client config vLog s)) s logs.

Definition transferQuery
    (config : ContractConfig) (fromBlock toBlock : Z) : ethereum.FilterQuery :=
  {| ethereum.FromBlock := int64 fromBlock;
     ethereum.ToBlock := int64 toBlock;
     ethereum.Addresses := [Address config];
     ethereum.Topics := [[TransferSignature]] |}.

Definition processBlockRange
    (client : ethclient.Client) (config : ContractConfig)
    (fromBlock toBlock : Z) (s : State) : State * option error :=
  let query := transferQuery config fromBlock toBlock in
  let s := record (CallFilterLogs fromBlock toBlock) s in
  match ethclient.FilterLogs client query with
  | None => (s, Some ErrFilterLogs)
  | Some logs => (processLogs client config logs s, None)
  end.

(** The upper end of the chunk that starts at [fromBlock]. *)
Definition chunkEnd (batchSize currentBlock fromBlock : Z) : Z :=
  let toBlock := u64 (u64 (fromBlock + batchSize) - 1) in
  if currentBlock <? toBlock then currentBlock else toBlock.

(** The [for fromBlock := ...; fromBlock <= currentBlock; fromBlock +=
    batchSize] loop.  [fuel] bounds the number of iterations. *)
Fixpoint chunkLoop
    (fuel : nat) (client : ethclient.Client) (config : ContractConfig)
    (batchSize currentBlock fromBlock : Z) (s : State) : State * outcome :=
  if fromBlock <=? currentBlock then
    match fuel with
    | O => (s, Running)
    | S fuel' =>
        let toBlock := chunkEnd batchSize currentBlock fromBlock in
        match processBlockRange client config fromBlock toBlock s with
        | (s', Some err) =>
            (s', Returned (Some (ErrProcessBlocks fromBlock toBlock err)))
        | (s', None) =>
            chunkLoop fuel' client config batchSize currentBlock
              (u64 (fromBlock + batchSize))
              (updateLastProcessedBlock (Address config) toBlock s')
        end
    end
  else (s, Returned None).

(** The value of [lastBlock] after the clamp to [StartBlock]. *)
Definition lastBlockOf (config : ContractConfig) (s : State) : Z :=
  let lastBlock := getLastProcessedBlock s (Address config) in
  if lastBlock <? StartBlock config then StartBlock config else lastBlock.

Definition processContractEvents
    (fuel : nat) (client : ethclient.Client) (config : ContractConfig)
    (s : State) : State * outcome :=
  let lastBlock := lastBlockOf config s in
  match ethclient.BlockNumber client with
  | None => (s, Returned (Some ErrBlockNumber))
  | Some currentBlock =>
      if currentBlock <=? lastBlock then (s, Returned None)
      else
        let batchSize := u64 batch_size in
        chunkLoop fuel client config batchSize currentBlock
          (u64 (lastBlock + 1)) s
  end.

(** [monitorContract] over the signals its [select] receives, with the
    errors it printed, oldest first. *)
Fixpoint monitorContract
    (fuel : nat) (config : ContractConfig) (signals : list Signal)
    (s : State) : State * list error * status :=
  match signals with
  | [] => (s, [], Waiting)
  | Stop :: _ => (s, [], Exited)
  | Tick client :: signals' =>
      match processContractEvents fuel client config s with
      | (s', Running) => (s', [], InTick)
      | (s', Returned err) =>
          let '(s'', printed, st) := monitorContract fuel config signals' s' in
          (s'', match err with Some e => e :: printed | None => printed end, st)
      end
  end.

End Indexer.

(** ** Reading the journal *)

(** The block ranges requested, in the order of the requests. *)
Fixpoint chunksOf (h : list Call) : list (Z * Z) :=
  match h with
  | [] => []
  | CallFilterLogs fromBlock toBlock :: h' => (fromBlock, toBlock) :: chunksOf h'
  | CallSave _ _ :: h' => chunksOf h'
  end.


(** The transaction hashes present in the Event Store. *)
Definition known (s : State) : list string := models.TxHash <$> transactions s.

(** ** Specification vocabulary *)

(** [ceilDiv a b] is the ceiling of [a / b] for [b] positive. *)
Definition ceilDiv (a b : Z) : Z := (a + b - 1) / b.

(** [tiles M fromBlock toBlock l]: the ranges of [l], in order, are
    non-empty, at most [M] wide, each starts right after the previous one
    ends, the first starts at [fromBlock] and the last ends at [toBlock]. *)
Fixpoint tiles (M fromBlock toBlock : Z) (l : list (Z * Z)) : Prop :=
  match l with
  | [] => fromBlock = toBlock + 1
  | (a, b) :: l' =>
      a = fromBlock /\ a <= b <= toBlock /\ b - a + 1 <= M /\
      tiles M (b + 1) toBlock l'
  end.



(** The value of a byte string read as a big-endian number, digit by
    digit. *)
Fixpoint bigEndian (buf : list byte) : Z :=
  match buf with
  | [] => 0
  | b :: buf' => byteZ b * 256 ^ Z.of_nat (length buf') + bigEndian buf'
  end.

(** A log passes the shape check of the decoder. *)
Definition wellShaped (vLog : types.Log) : Prop :=
  (3 <= length (types.Topics vLog))%nat /\ (32 <= length (types.Data vLog))%nat.


(** ** A node and a few logs to run the indexer on *)

Module Scenario.

(** A rendering of addresses for the examples: plain lower-case
    hexadecimal. *)
Definition lowerHex (a : common.Address) : string := common.HashHex a.

(** Whether a log answers a query: block range, emitting contract and,
    when the query names signatures, first topic. *)
Definition matchesQuery (q : ethereum.FilterQuery) (vLog : types.Log) : bool :=
  bool_decide (ethereum.FromBlock q <= types.BlockNumber vLog <= ethereum.ToBlock q)
  && bool_decide (types.Address vLog ∈ ethereum.Addresses q)
  && match ethereum.Topics q !! 0%nat with
     | None | Some [] => true
     | Some sigs =>
         match types.Topics vLog !! 0%nat with
         | Some t => bool_decide (t ∈ sigs)
         | None => false
         end
     end.

(** A node at [height] whose chain holds the logs [chain]. *)
Definition node (height : Z) (chain : list types.Log) : ethclient.Client :=
  {| ethclient.BlockNumber := Some height;
     ethclient.FilterLogs := fun q => Some (List.filter (matchesQuery q) chain);
     ethclient.BlockByNumber := fun n => Some (1700000000 + 12 * n) |}.

(** A node at [height] that fails every log query. *)
Definition deafNode (height : Z) : ethclient.Client :=
  {| ethclient.BlockNumber := Some height;
     ethclient.FilterLogs := fun _ => None;
     ethclient.BlockByNumber := fun n => Some (1700000000 + 12 * n) |}.


Definition token : common.Address := replicate 20 xa0.

Definition usdc : ContractConfig :=
  {| Name := "USDC"; Address := token; StartBlock := 100 |}.


(** The same contract registered three blocks below the top of [uint64]. *)
Definition usdcTop : ContractConfig :=
  {| Name := "USDC"; Address := token; StartBlock := 2 ^ 64 - 3 |}.

Definition empty : State :=
  {| transactions := []; block_progress := ∅; history := [] |}.


(** The topic of an indexed address argument. *)
Definition topicOf (b : byte) : common.Hash := replicate 12 x00 ++ replicate 20 b.

(** The 32-byte encoding of a small amount. *)
Definition word (b : byte) : list byte := replicate 31 x00 ++ [b].

(** Two transfers emitted by one transaction in block 120. *)
Definition transfer1 : types.Log :=
  {| types.Address := token;
     types.Topics := [TransferSignature; topicOf x11; topicOf x22];
     types.Data := word x05;
     types.BlockNumber := 120;
     types.TxHash := replicate 32 xaa;
     types.Index := 0 |}.

Definition transfer2 : types.Log :=
  {| types.Address := token;
     types.Topics := [TransferSignature; topicOf x22; topicOf x33];
     types.Data := word x07;
     types.BlockNumber := 120;
     types.TxHash := replicate 32 xaa;
     types.Index := 1 |}.

(** A transfer of another transaction, in block 130. *)
Definition transfer3 : types.Log :=
  {| types.Address := token;
     types.Topics := [TransferSignature; topicOf x33; topicOf x11];
     types.Data := word x09;
     types.BlockNumber := 130;
     types.TxHash := replicate 32 xbb;
     types.Index := 0 |}.


(** A log of the right shape whose first topic is not the transfer
    signature. *)
Definition approval : types.Log :=
  {| types.Address := token;
     types.Topics := [replicate 32 x8c; topicOf x11; topicOf x22];
     types.Data := word x05;
     types.BlockNumber := 126;
     types.TxHash := replicate 32 xdd;
     types.Index := 0 |}.

End Scenario.

(** * The rest of the program *)

(** ** Hexadecimal strings: [encoding/hex] and go-ethereum [common]

    These are library functions; they are written out because
    [loadContractsFromConfig] and [processBlockRange] go through them. *)

Module hex.

(** [reverseHexTable]: the value of a hexadecimal digit, lower or upper
    case. *)
Definition fromHexChar (c : ascii) : option N :=
  let n := N_of_ascii c in
  if (48 <=? n)%N && (n <=? 57)%N then Some (n - 48)%N
  else if (97 <=? n)%N && (n <=? 102)%N then Some (n - 87)%N
  else if (65 <=? n)%N && (n <=? 70)%N then Some (n - 55)%N
  else None.

Definition byteOf (a b : N) : byte := default x00 (Byte.of_N (a * 16 + b)).

(** [DecodeString] with its error dropped, as [Hex2Bytes] uses it: the
    bytes decoded before the first invalid character; a last unpaired
    character is left out. *)
Fixpoint DecodeString (s : string) : list byte :=
  match s with
  | String p (String q s') =>
      match fromHexChar p, fromHexChar q with
      | Some a, Some b => byteOf a b :: DecodeString s'
      | _, _ => []
      end
  | _ => []
  end.

End hex.

Module gethcommon.

Definition has0xPrefix (str : string) : bool :=
  match str with
  | String c0 (String c1 _) =>
      Ascii.eqb c0 "0" && (Ascii.eqb c1 "x" || Ascii.eqb c1 "X")
  | _ => false
  end.

Definition Hex2Bytes (str : string) : list byte := hex.DecodeString str.

(** [FromHex]: an optional 0x prefix is removed and a string of odd length
    gets a leading 0. *)
Definition FromHex (s : string) : list byte :=
  let s := if has0xPrefix s then String.substring 2 (String.length s - 2) s else s in
  let s := if Nat.odd (String.length s) then String "0" s else s in
  Hex2Bytes s.

(** [BytesToHash]: as [BytesToAddress], on 32 bytes. *)
Definition BytesToHash (b : list byte) : common.Hash :=
  let b := if bool_decide (common.HashLength < length b)%nat
           then drop (length b - common.HashLength) b else b in
  replicate (common.HashLength - length b) x00 ++ b.

Definition HexToHash (s : string) : common.Hash := BytesToHash (FromHex s).

Definition HexToAddress (s : string) : common.Address :=
  common.BytesToAddress (FromHex s).

End gethcommon.

(** ** Configuration: [loadContractsFromConfig]

    What [viper.Get] returns for a key of a YAML file.  [Other] stands for
    a value of any further dynamic type. *)

Module viper.

#[local] Unset Elimination Schemes.

Inductive value :=
| Nil
| Str (s : string)
| Int (z : Z)
| Bool (b : bool)
| Other
| List (l : list value)
| Map (m : list (string * value)).

#[local] Set Elimination Schemes.

(** [m[key]] on a [map[string]interface{}]: [Nil] for a missing key. *)
Fixpoint index (m : list (string * value)) (key : string) : value :=
  match m with
  | [] => Nil
  | (k, v) :: m' => if String.eqb k key then v else index m' key
  end.

End viper.

(** One pass of the body of the [for _, token := range tokensList] loop.
    [None] is the panic of a failed type assertion. *)
Definition loadToken (token : viper.value) : option ContractConfig :=
  match token with
  | viper.Map tokenMap =>
      match viper.index tokenMap "name" with
      | viper.Str name =>
          match viper.index tokenMap "address" with
          | viper.Str address =>
              match viper.index tokenMap "start_block" with
              | viper.Int startBlock =>
                  Some {| Name := name;
                          Address := gethcommon.HexToAddress address;
                          StartBlock := u64 startBlock |}
              | _ => None
              end
          | _ => None
          end
      | _ => None
      end
  | _ => None
  end.

(** The loop, appending to [contracts]. *)
Fixpoint loadTokens (tokensList : list viper.value) (contracts : list ContractConfig)
    : option (list ContractConfig) :=
  match tokensList with
  | [] => Some contracts
  | token :: tokensList' =>
      match loadToken token with
      | None => None
      | Some contract => loadTokens tokensList' (contracts ++ [contract])
      end
  end.

(** [loadContractsFromConfig], given [viper.Get("contracts.tokens")]. *)
Definition loadContractsFromConfig (tokens : viper.value)
    : option (list ContractConfig) :=
  match tokens with
  | viper.Nil => Some []
  | viper.List tokensList => loadTokens tokensList []
  | _ => None
  end.

(** A well-formed entry of [contracts.tokens]. *)
Definition tokenEntry (name address : string) (startBlock : Z) : viper.value :=
  viper.Map [("name", viper.Str name); ("address", viper.Str address);
             ("start_block", viper.Int startBlock)]%string.

(** [describes token name address startBlock]: [token] is a map with a
    string under [name], a string under [address] and an integer under
    [start_block]; it may have further keys. *)
Definition describes
    (token : viper.value) (name address : string) (startBlock : Z) : Prop :=
  exists tokenMap,
    token = viper.Map tokenMap /\
    viper.index tokenMap "name" = viper.Str name /\
    viper.index tokenMap "address" = viper.Str address /\
    viper.index tokenMap "start_block" = viper.Int startBlock.

(** The contract an entry stands for. *)
Definition contractOf (name address : string) (startBlock : Z) : ContractConfig :=
  {| Name := name;
     Address := gethcommon.HexToAddress address;
     StartBlock := u64 startBlock |}.

(** ** Start and stop: [Indexer.Start], [Indexer.Stop]

    The stop channel is unbuffered and nothing is ever sent on it, so a
    receive completes only once the channel is closed. *)

Module lifecycle.

Inductive chan :=
| ChanOpen
| ChanClosed.

(** [close(c)]; [None] is the panic of closing a closed channel. *)
Definition close (c : chan) : option chan :=
  match c with
  | ChanOpen => Some ChanClosed
  | ChanClosed => None
  end.

(** [<-c]; [None] means the receive blocks. *)
Definition receive (c : chan) : option unit :=
  match c with
  | ChanOpen => None
  | ChanClosed => Some tt
  end.

Definition Stop (stopChan : chan) : option chan := close stopChan.

(** [n] calls of [Stop] by other goroutines, one after the other. *)
Fixpoint stops (n : nat) (stopChan : chan) : option chan :=
  match n with
  | O => Some stopChan
  | S n' =>
      match Stop stopChan with
      | None => None
      | Some c => stops n' c
      end
  end.

Inductive started :=
| StartFailed
| StartBlocked
| StartPanicked
| StartReturned.

(** [Start], from [database.Initialize] on.  [initialized] tells whether
    [database.Initialize] succeeded, [before] how often [Stop] is called
    before [Start] reaches its receive, [between] how often it is called
    between the receive and the [close] of [Start]. *)
Definition Start (initialized : bool) (before between : nat) : started :=
  if initialized then
    match stops before ChanOpen with
    | None => StartPanicked
    | Some stopChan =>
        match receive stopChan with
        | None => StartBlocked
        | Some _ =>
            match stops between stopChan with
            | None => StartPanicked
            | Some stopChan =>
                match close stopChan with
                | None => StartPanicked
                | Some _ => StartReturned
                end
            end
        end
    end
  else StartFailed.

End lifecycle.

(** ** Registering a contract: [addContractHandler] *)

Module server.

(** [models.Contract], the columns the handler fills in. *)
Record Contract := {
  Name : string;
  Address : string;
  StartBlock : Z;
  LastBlock : Z;
  IsActive : bool
}.

Record request := {
  name : string;
  address : string;
  start_block : Z
}.

Inductive response :=
| StatusOK (contract : request)
| StatusBadRequest
| StatusInternalServerError.

(** [db.Create(&contract)] on the contracts table: [Address] carries a
    unique index. *)
Definition Create (contract : Contract) (contracts : list Contract)
    : list Contract * bool :=
  if bool_decide (Address contract ∈ Address <$> contracts)
  then (contracts, false)
  else (contracts ++ [contract], true).

(** [addContractHandler].  [bound] is what [c.ShouldBindJSON(&req)] gives:
    the request, or [None] for a binding error. *)
Definition addContractHandler (bound : option request) (contracts : list Contract)
    : list Contract * response :=
  match bound with
  | None => (contracts, StatusBadRequest)
  | Some req =>
      let contract :=
        {| Name := name req;
           Address := address req;
           StartBlock := start_block req;
           LastBlock := 0;
           IsActive := true |} in
      match Create contract contracts with
      | (contracts', true) => (contracts', StatusOK req)
      | (contracts', false) => (contracts', StatusInternalServerError)
      end
  end.

(** The handler over a sequence of requests. *)
Fixpoint serve (requests : list (option request)) (contracts : list Contract)
    : list Contract * list response :=
  match requests with
  | [] => (contracts, [])
  | bound :: requests' =>
      let '(contracts', r) := addContractHandler bound contracts in
      let '(contracts'', rs) := serve requests' contracts' in
      (contracts'', r :: rs)
  end.

End server.


(** ** More to run the program on *)

Module Examples.

(** A node that cannot be reached. *)
Definition silentNode : ethclient.Client :=
  {| ethclient.BlockNumber := None;
     ethclient.FilterLogs := fun _ => None;
     ethclient.BlockByNumber := fun _ => None |}.


Definition tokenHex : string := "0xa0a0a0a0a0a0a0a0a0a0a0a0a0a0a0a0a0a0a0a0".

(** An entry of [contracts.tokens] as the sample configuration has them,
    with an [abi_file] key. *)
Definition usdcEntry : viper.value :=
  viper.Map [("name", viper.Str "USDC"); ("address", viper.Str tokenHex);
             ("start_block", viper.Int 100);
             ("abi_file", viper.Str "abis/erc20.json")]%string.

(** An entry without [start_block]. *)
Definition daiEntry : list (string * viper.value) :=
  [("name", viper.Str "DAI");
   ("address", viper.Str "0xb0b0b0b0b0b0b0b0b0b0b0b0b0b0b0b0b0b0b0b0")]%string.

(** A store that holds the checkpoint of another contract. *)
Definition withOther : State :=
  {| transactions := [];
     block_progress := {[ "0xother"%string := 7 ]};
     history := [] |}.

Definition addUsdc : server.request :=
  {| server.name := "USDC"; server.address := tokenHex; server.start_block := 100 |}.

Definition addDai : server.request :=
  {| server.name := "DAI";
     server.address := "0xb0b0b0b0b0b0b0b0b0b0b0b0b0b0b0b0b0b0b0b0";
     server.start_block := 0 |}.

End Examples.

(** * Properties *)

Section Properties.

Context (AddressHex : common.Address -> string).

Abbreviation pte := (processTransferEvent AddressHex).
Abbreviation plogs := (processLogs AddressHex).

(** ** One log *)

Lemma Create_refused tx s :
  models.TxHash tx ∈ known s -> Create tx s = (s, false).
Proof.
  intros Hin. unfold Create, known in *. rewrite bool_decide_eq_true_2; done.
Qed.

Lemma Create_false tx s s' : Create tx s = (s', false) -> s' = s.
Proof. unfold Create. case_bool_decide; congruence. Qed.

Lemma Create_known tx s : models.TxHash tx ∈ known (Create tx s).1.
Proof.
  unfold Create, known. case_bool_decide as H; simpl; [done|].
  rewrite fmap_app. apply elem_of_app. right. simpl. apply list_elem_of_singleton. done.
Qed.

Lemma Create_prefix tx s : transactions s `prefix_of` transactions (Create tx s).1.
Proof.
  unfold Create. case_bool_decide; simpl; [done|]. by apply prefix_app_r.
Qed.

Lemma Create_frame tx s :
  block_progress (Create tx s).1 = block_progress s /\
  history (Create tx s).1 = history s.
Proof. unfold Create. case_bool_decide; done. Qed.

(** A log that is not persisted leaves the store as it was. *)
Lemma pte_error client config vLog s s' e :
  pte client config vLog s = (s', Some e) -> s' = s.
Proof.
  unfold processTransferEvent.
  destruct (_ || _); [congruence|].
  destruct (ethclient.BlockByNumber _ _); [|congruence].
  destruct (Create _ s) as [s1 []] eqn:HC; [congruence|].
  apply Create_false in HC. congruence.
Qed.

Lemma pte_prefix client config vLog s :
  transactions s `prefix_of` transactions (pte client config vLog s).1.
Proof.
  unfold processTransferEvent.
  destruct (_ || _); [done|].
  destruct (ethclient.BlockByNumber _ _); [|done].
  pose proof (Create_prefix (transferRecord AddressHex config vLog z) s) as HP.
  destruct (Create _ s) as [s1 []]; done.
Qed.

Lemma pte_frame client config vLog s :
  block_progress (pte client config vLog s).1 = block_progress s /\
  history (pte client config vLog s).1 = history s.
Proof.
  unfold processTransferEvent.
  destruct (_ || _); [done|].
  destruct (ethclient.BlockByNumber _ _); [|done].
  pose proof (Create_frame (transferRecord AddressHex config vLog z) s) as HP.
  destruct (Create _ s) as [s1 []]; done.
Qed.

(** Once the shape check and the block lookup have passed, the hash of the
    log is in the store, whether the insert went through or was refused. *)
Lemma pte_known client config vLog s blockTime :
  wellShaped vLog ->
  ethclient.BlockByNumber client (int64 (types.BlockNumber vLog)) = Some blockTime ->
  common.HashHex (types.TxHash vLog) ∈ known (pte client config vLog s).1.
Proof.
  intros [Ht Hd] Hb. unfold processTransferEvent.
  rewrite !bool_decide_eq_false_2 by lia. simpl. rewrite Hb.
  pose proof (Create_known (transferRecord AddressHex config vLog blockTime) s) as HK.
  destruct (Create _ s) as [s1 []]; exact HK.
Qed.

(** If the hash of the log is already stored, the log changes nothing. *)
Lemma pte_noop client config vLog s :
  common.HashHex (types.TxHash vLog) ∈ known s ->
  (pte client config vLog s).1 = s.
Proof.
  intros Hin. unfold processTransferEvent.
  destruct (_ || _); [done|].
  destruct (ethclient.BlockByNumber _ _) as [blockTime|]; [|done].
  rewrite Create_refused; done.
Qed.

(** ** The logs of one chunk *)

Lemma plogs_cons client config vLog logs s :
  plogs client config (vLog :: logs) s =
  plogs client config logs (pte client config vLog s).1.
Proof. reflexivity. Qed.

Lemma plogs_app client config l1 l2 s :
  plogs client config (l1 ++ l2) s = plogs client config l2 (plogs client config l1 s).
Proof. unfold processLogs. apply foldl_app. Qed.

Lemma plogs_prefix client config logs s :
  transactions s `prefix_of` transactions (plogs client config logs s).
Proof.
  revert s. induction logs as [|vLog logs IH]; intros s; [done|].
  rewrite plogs_cons. etrans; [apply pte_prefix|apply IH].
Qed.

Lemma plogs_frame client config logs s :
  block_progress (plogs client config logs s) = block_progress s /\
  history (plogs client config logs s) = history s.
Proof.
  revert s. induction logs as [|vLog logs IH]; intros s; [done|].
  rewrite plogs_cons. destruct (IH (pte client config vLog s).1) as [-> ->].
  apply pte_frame.
Qed.

Lemma known_prefix s s' h :
  transactions s `prefix_of` transactions s' -> h ∈ known s -> h ∈ known s'.
Proof.
  intros [k Hk] Hin. unfold known in *. rewrite Hk, fmap_app.
  apply elem_of_app. by left.
Qed.


(** Skipped logs do not stop the loop: a log on which
    [processTransferEvent] fails can be dropped from the chunk without
    changing what the chunk does. *)
Lemma plogs_skip client config l1 vLog l2 s e :
  (pte client config vLog (plogs client config l1 s)).2 = Some e ->
  plogs client config (l1 ++ vLog :: l2) s = plogs client config (l1 ++ l2) s.
Proof.
  intros He. rewrite !plogs_app, plogs_cons.
  destruct (pte client config vLog (plogs client config l1 s)) as [s1 r] eqn:Hp.
  simpl in He. subst r. apply pte_error in Hp. by subst.
Qed.

(** Running the logs of a chunk on a store that already knows every hash
    the first run knew changes nothing. *)
Lemma plogs_replay client config logs s s2 :
  (forall h, h ∈ known (plogs client config logs s) -> h ∈ known s2) ->
  plogs client config logs s2 = s2.
Proof.
  revert s s2. induction logs as [|vLog logs IH]; intros s s2 Hsub; [done|].
  rewrite plogs_cons in Hsub. rewrite plogs_cons.
  assert ((pte client config vLog s2).1 = s2) as ->; [|by eapply IH].
  unfold processTransferEvent.
  destruct (_ || _) eqn:Hshape; [done|].
  destruct (ethclient.BlockByNumber _ _) as [blockTime|] eqn:Hb; [|done].
  rewrite Create_refused; [done|]. apply Hsub.
  eapply known_prefix; [apply plogs_prefix|].
  apply orb_false_iff in Hshape as [H1 H2].
  apply bool_decide_eq_false in H1, H2.
  eapply pte_known; [split; lia|done].
Qed.

(** A chunk all of whose logs have their hash in the store adds nothing. *)
Lemma plogs_all_known client config logs s :
  (forall vLog, vLog ∈ logs -> common.HashHex (types.TxHash vLog) ∈ known s) ->
  plogs client config logs s = s.
Proof.
  induction logs as [|vLog logs IH]; intros Hall; [done|].
  rewrite plogs_cons, pte_noop.
  - apply IH. intros v Hv. apply Hall. apply elem_of_cons. by right.
  - apply Hall. apply elem_of_cons. by left.
Qed.

Lemma pbr_fetched client config fromBlock toBlock s logs :
  ethclient.FilterLogs client (transferQuery config fromBlock toBlock) = Some logs ->
  processBlockRange AddressHex client config fromBlock toBlock s =
    (plogs client config logs (record (CallFilterLogs fromBlock toBlock) s), None).
Proof. intros H. unfold processBlockRange. by rewrite H. Qed.

Lemma pbr_failed client config fromBlock toBlock s :
  ethclient.FilterLogs client (transferQuery config fromBlock toBlock) = None ->
  processBlockRange AddressHex client config fromBlock toBlock s =
    (record (CallFilterLogs fromBlock toBlock) s, Some ErrFilterLogs).
Proof. intros H. unfold processBlockRange. by rewrite H. Qed.

(** ** Duplicates and malformed logs *)

(** C3. An insert whose transaction hash is already stored is refused and
    leaves the table as it was; whatever a chunk does, the rows already
    stored stay in place, unchanged; a chunk all of whose logs have their
    hash in the store changes nothing, and fetching, decoding and
    persisting a range a second time adds no row; and a log whose insert is
    refused is the only one skipped: the chunk does what it does without
    that log. *)
Theorem C3_write_once_idempotent_refetch client config :
  (forall tx s, models.TxHash tx ∈ known s -> Create tx s = (s, false)) /\
  (forall logs s,
     transactions s `prefix_of` transactions (plogs client config logs s)) /\
  (forall logs s,
     (forall vLog, vLog ∈ logs -> common.HashHex (types.TxHash vLog) ∈ known s) ->
     plogs client config logs s = s) /\
  (forall fromBlock toBlock s,
     let s1 := (processBlockRange AddressHex client config fromBlock toBlock s).1 in
     transactions (processBlockRange AddressHex client config fromBlock toBlock s1).1
       = transactions s1) /\
  (forall l1 vLog l2 s,
     (pte client config vLog (plogs client config l1 s)).2 = Some ErrSaveTransaction ->
     plogs client config (l1 ++ vLog :: l2) s = plogs client config (l1 ++ l2) s).
Proof.
  split; [|split; [|split; [|split]]].
  - intros tx s. apply Create_refused.
  - intros logs s. apply plogs_prefix.
  - intros logs s. apply plogs_all_known.
  - intros fromBlock toBlock s. unfold processBlockRange.
    destruct (ethclient.FilterLogs _ _) as [logs|]; simpl; [|done].
    set (c := CallFilterLogs fromBlock toBlock).
    set (s1 := plogs client config logs (record c s)).
    rewrite (plogs_replay client config logs (record c s) (record c s1)); done.
  - intros l1 vLog l2 s. apply plogs_skip.
Qed.


(** ** The decoder *)

Lemma byteZ_range b : 0 <= byteZ b < 256.
Proof. unfold byteZ. pose proof (Byte.to_N_bounded b). lia. Qed.

Lemma bigEndian_range buf : 0 <= bigEndian buf < 256 ^ Z.of_nat (length buf).
Proof.
  induction buf as [|b buf IH]; simpl bigEndian; [simpl; lia|].
  pose proof (byteZ_range b).
  replace (Z.of_nat (length (b :: buf))) with (Z.succ (Z.of_nat (length buf)))
    by (simpl length; lia).
  rewrite Z.pow_succ_r by lia. nia.
Qed.

Lemma foldl_bigEndian acc buf :
  foldl (fun acc b => acc * 256 + byteZ b) acc buf =
  acc * 256 ^ Z.of_nat (length buf) + bigEndian buf.
Proof.
  revert acc. induction buf as [|b buf IH]; intros acc; simpl foldl; simpl bigEndian.
  - simpl. lia.
  - rewrite IH.
    replace (Z.of_nat (length (b :: buf))) with (Z.succ (Z.of_nat (length buf)))
      by (simpl length; lia).
    rewrite Z.pow_succ_r by lia. ring.
Qed.

(** [SetBytes] computes the big-endian value. *)
Lemma SetBytes_bigEndian buf : SetBytes buf = bigEndian buf.
Proof. unfold SetBytes. rewrite foldl_bigEndian. lia. Qed.

(** The decimal string of a natural number reads back as that number. *)
Lemma bigString_reads_back x :
  0 <= x ->
  (fun u => Z.of_N (N.of_uint u)) <$> NilZero.uint_of_string (bigString x) = Some x.
Proof.
  intros Hx. unfold bigString.
  assert (N.to_uint (Z.to_N x) <> Decimal.Nil) as Hnil.
  { rewrite <- (DecimalN.Unsigned.of_to (Z.to_N x)) at 1.
    rewrite DecimalN.Unsigned.to_of. apply DecimalFacts.unorm_nonnil. }
  rewrite (NilZero.usu _ Hnil). simpl.
  rewrite DecimalN.Unsigned.of_to. f_equal. lia.
Qed.

(** The address taken from a 32-byte topic is its last 20 bytes. *)
Lemma BytesToAddress_topic (t : common.Hash) :
  length t = common.HashLength ->
  common.BytesToAddress t = drop 12 t /\ length (drop 12 t) = common.AddressLength.
Proof.
  intros Hlen. unfold common.BytesToAddress, common.HashLength, common.AddressLength in *.
  rewrite bool_decide_eq_true_2 by lia. rewrite Hlen.
  rewrite !length_drop, !Hlen. simpl. done.
Qed.

(** C8. For every log the decoder accepts, exactly one record is added to
    the store; its sender and recipient are the renderings of the last 20
    bytes of the second and third topic, and its amount is the decimal
    string of the first 32 bytes of the data read as a big-endian unsigned
    number, a string that reads back as that number. *)
Theorem C8_decoded_fields client config vLog s s' :
  Forall (fun t : common.Hash => length t = common.HashLength) (types.Topics vLog) ->
  pte client config vLog s = (s', None) ->
  exists sig t1 t2 topics tx,
    types.Topics vLog = sig :: t1 :: t2 :: topics /\
    transactions s' = transactions s ++ [tx] /\
    length (drop 12 t1) = common.AddressLength /\
    length (drop 12 t2) = common.AddressLength /\
    models.FromAddress tx = AddressHex (drop 12 t1) /\
    models.ToAddress tx = AddressHex (drop 12 t2) /\
    let amount := bigEndian (take 32 (types.Data vLog)) in
    0 <= amount < 2 ^ 256 /\
    models.Amount tx = bigString amount /\
    (fun u => Z.of_N (N.of_uint u)) <$> NilZero.uint_of_string (models.Amount tx)
      = Some amount.
Proof.
  intros Hlen Hp. unfold processTransferEvent in Hp.
  destruct (_ || _) eqn:Hshape; [congruence|].
  apply orb_false_iff in Hshape as [H1 H2].
  apply bool_decide_eq_false in H1, H2.
  destruct (ethclient.BlockByNumber _ _) as [blockTime|]; [|congruence].
  destruct (types.Topics vLog) as [|sig [|t1 [|t2 topics]]] eqn:Ht;
    simpl in H1; try lia.
  apply Forall_cons in Hlen as [_ Hlen].
  apply Forall_cons in Hlen as [Hl1 Hlen].
  apply Forall_cons in Hlen as [Hl2 _].
  destruct (BytesToAddress_topic t1 Hl1) as [Hb1 Hd1].
  destruct (BytesToAddress_topic t2 Hl2) as [Hb2 Hd2].
  set (tx := transferRecord AddressHex config vLog blockTime) in *.
  unfold Create in Hp. case_bool_decide; [congruence|].
  inversion Hp; subst s'; clear Hp. simpl.
  exists sig, t1, t2, topics, tx.
  assert (0 <= bigEndian (take 32 (types.Data vLog)) < 2 ^ 256) as Hr.
  { pose proof (bigEndian_range (take 32 (types.Data vLog))) as Hr.
    rewrite length_take in Hr.
    replace (Z.of_nat (32 `min` length (types.Data vLog))) with 32 in Hr by lia.
    exact Hr. }
  assert (models.Amount tx = bigString (bigEndian (take 32 (types.Data vLog)))) as Ha.
  { unfold tx, transferRecord. simpl. by rewrite SetBytes_bigEndian. }
  repeat split; try done; try lia.
  - unfold tx, transferRecord. simpl. rewrite Ht. simpl. by rewrite Hb1.
  - unfold tx, transferRecord. simpl. rewrite Ht. simpl. by rewrite Hb2.
  - rewrite Ha. apply bigString_reads_back. lia.
Qed.




(** ** The chunk loop *)

Abbreviation cloop := (chunkLoop AddressHex).

Lemma u64_small x : 0 <= x < 2 ^ 64 -> u64 x = x.
Proof. intros H. unfold u64. by apply Z.mod_small. Qed.

Lemma chunkEnd_small M cur fromBlock :
  1 <= M -> 0 <= fromBlock -> fromBlock + M < 2 ^ 64 ->
  chunkEnd M cur fromBlock = Z.min (fromBlock + M - 1) cur.
Proof.
  intros HM Hf Hw. unfold chunkEnd.
  rewrite (u64_small (fromBlock + M)) by lia.
  rewrite u64_small by lia.
  destruct (Z.ltb_spec cur (fromBlock + M - 1)); lia.
Qed.

Lemma ceilDiv_step x M : 0 < M -> ceilDiv (x + M) M = ceilDiv x M + 1.
Proof.
  intros HM. unfold ceilDiv.
  replace (x + M + M - 1) with (x + M - 1 + 1 * M) by lia.
  by rewrite Z.div_add by lia.
Qed.

Lemma ceilDiv_one x M : 0 < x <= M -> ceilDiv x M = 1.
Proof.
  intros Hx. unfold ceilDiv. symmetry.
  apply (Z.div_unique_pos _ _ 1 (x - 1)); lia.
Qed.

Lemma ceilDiv_pos x M : 0 < M -> 0 < x -> 0 < ceilDiv x M.
Proof.
  intros HM Hx. unfold ceilDiv. apply Z.div_str_pos. lia.
Qed.

Lemma cloop_done fuel client config M cur fromBlock s :
  cur < fromBlock ->
  cloop fuel client config M cur fromBlock s = (s, Returned None).
Proof.
  intros H. destruct fuel; simpl;
    destruct (Z.leb_spec fromBlock cur); (done || lia).
Qed.

Lemma cloop_failed fuel client config M cur fromBlock s :
  fromBlock <= cur ->
  ethclient.FilterLogs client
    (transferQuery config fromBlock (chunkEnd M cur fromBlock)) = None ->
  cloop (S fuel) client config M cur fromBlock s =
    (record (CallFilterLogs fromBlock (chunkEnd M cur fromBlock)) s,
     Returned (Some (ErrProcessBlocks fromBlock (chunkEnd M cur fromBlock)
                       ErrFilterLogs))).
Proof.
  intros Hle Hf. simpl. destruct (Z.leb_spec fromBlock cur); [|lia].
  by rewrite (pbr_failed _ _ _ _ _ Hf).
Qed.

Lemma cloop_fetched fuel client config M cur fromBlock s logs :
  fromBlock <= cur ->
  ethclient.FilterLogs client
    (transferQuery config fromBlock (chunkEnd M cur fromBlock)) = Some logs ->
  cloop (S fuel) client config M cur fromBlock s =
    cloop fuel client config M cur (u64 (fromBlock + M))
      (updateLastProcessedBlock AddressHex (Address config)
         (chunkEnd M cur fromBlock)
         (plogs client config logs
            (record (CallFilterLogs fromBlock (chunkEnd M cur fromBlock)) s))).
Proof.
  intros Hle Hf. simpl. destruct (Z.leb_spec fromBlock cur); [|lia].
  by rewrite (pbr_fetched _ _ _ _ _ _ Hf).
Qed.

Lemma chunksOf_app h1 h2 : chunksOf (h1 ++ h2) = chunksOf h1 ++ chunksOf h2.
Proof.
  induction h1 as [|[a b|c n] h1 IH]; simpl; [done| |done]. by rewrite IH.
Qed.


(** The journal after one successful chunk. *)
Lemma history_chunk client config logs fromBlock toBlock s :
  history
    (updateLastProcessedBlock AddressHex (Address config) toBlock
       (plogs client config logs (record (CallFilterLogs fromBlock toBlock) s)))
  = history s ++ [CallFilterLogs fromBlock toBlock;
                  CallSave (AddressHex (Address config)) toBlock].
Proof.
  unfold updateLastProcessedBlock, Save. simpl.
  destruct (plogs_frame client config logs
              (record (CallFilterLogs fromBlock toBlock) s)) as [_ ->].
  simpl. by rewrite <- app_assoc.
Qed.

(** With a node that answers every query, the loop started at [fromBlock]
    with upper end [cur] returns after [ceilDiv (cur - fromBlock + 1) M]
    chunks, which tile [[fromBlock, cur]]. *)
Lemma cloop_tiles client config M cur :
  (forall q, is_Some (ethclient.FilterLogs client q)) ->
  1 <= M ->
  forall fuel fromBlock s,
    0 <= fromBlock <= cur ->
    fromBlock + ceilDiv (cur - fromBlock + 1) M * M < 2 ^ 64 ->
    (Z.to_nat (ceilDiv (cur - fromBlock + 1) M) <= fuel)%nat ->
    exists s' l,
      cloop fuel client config M cur fromBlock s = (s', Returned None) /\
      chunksOf (history s') = chunksOf (history s) ++ l /\
      tiles M fromBlock cur l /\
      Z.of_nat (length l) = ceilDiv (cur - fromBlock + 1) M.
Proof.
  intros Hnode HM. induction fuel as [|fuel IH]; intros fromBlock s Hr Hw Hfuel.
  - pose proof (ceilDiv_pos (cur - fromBlock + 1) M). lia.
  - pose proof (ceilDiv_pos (cur - fromBlock + 1) M ltac:(lia) ltac:(lia)) as Hn.
    assert (fromBlock + M < 2 ^ 64) as Hw1 by nia.
    pose proof (chunkEnd_small M cur fromBlock HM ltac:(lia) Hw1) as Hend.
    destruct (Hnode (transferQuery config fromBlock (chunkEnd M cur fromBlock)))
      as [logs Hf].
    rewrite (cloop_fetched fuel client config M cur fromBlock s logs ltac:(lia) Hf).
    rewrite u64_small by lia.
    set (s1 := updateLastProcessedBlock _ _ _ _).
    assert (history s1 = history s ++
              [CallFilterLogs fromBlock (chunkEnd M cur fromBlock);
               CallSave (AddressHex (Address config)) (chunkEnd M cur fromBlock)])
      as Hh by apply history_chunk.
    destruct (Z.le_gt_cases (fromBlock + M) cur) as [Hmore|Hlast].
    + assert (ceilDiv (cur - fromBlock + 1) M
              = ceilDiv (cur - (fromBlock + M) + 1) M + 1) as Hc.
      { rewrite <- ceilDiv_step by lia. f_equal. lia. }
      destruct (IH (fromBlock + M) s1) as (s' & l & Hrun & Hch & Ht & Hlen);
        [lia|nia|lia|].
      exists s', ((fromBlock, chunkEnd M cur fromBlock) :: l).
      split; [done|]. split.
      { rewrite Hch, Hh, chunksOf_app. simpl. by rewrite <- app_assoc. }
      split.
      { simpl. rewrite Hend. repeat split; try lia.
        replace (Z.min (fromBlock + M - 1) cur + 1) with (fromBlock + M) by lia.
        done. }
      simpl length. lia.
    + rewrite cloop_done by lia.
      exists s1, [(fromBlock, chunkEnd M cur fromBlock)].
      split; [done|]. split.
      { rewrite Hh, chunksOf_app. simpl. done. }
      split.
      { simpl. rewrite Hend. repeat split; lia. }
      rewrite ceilDiv_one by lia. done.
Qed.

(** C5 (as the code has it). For [0 <= fromBlock <= cur], a batch size
    [M >= 1] and a loop counter that does not wrap ([fromBlock + n * M <
    2^64] for [n] the ceiling of [(cur - fromBlock + 1) / M]), the loop, run
    against a node that answers every query, returns after requesting
    exactly [n] ranges, in ascending order; they are consecutive, do not
    overlap, leave no gap, are at most [M] wide and cover [[fromBlock,
    cur]]. *)
Theorem C5_chunks_tile_the_range client config M cur fromBlock s fuel :
  (forall q, is_Some (ethclient.FilterLogs client q)) ->
  1 <= M ->
  0 <= fromBlock <= cur ->
  fromBlock + ceilDiv (cur - fromBlock + 1) M * M < 2 ^ 64 ->
  (Z.to_nat (ceilDiv (cur - fromBlock + 1) M) <= fuel)%nat ->
  exists s' l,
    cloop fuel client config M cur fromBlock s = (s', Returned None) /\
    chunksOf (history s') = chunksOf (history s) ++ l /\
    tiles M fromBlock cur l /\
    Z.of_nat (length l) = ceilDiv (cur - fromBlock + 1) M.
Proof. intros Hnode HM. by apply cloop_tiles. Qed.

(** ** Termination *)

Lemma history_record c s : history (record c s) = history s ++ [c].
Proof. done. Qed.

(** Whatever the node answers, [ceilDiv (cur - fromBlock + 1) M]
    iterations are enough for the loop to return. *)
Lemma cloop_returns client config M cur :
  1 <= M ->
  forall fuel fromBlock s,
    0 <= fromBlock <= cur ->
    fromBlock + ceilDiv (cur - fromBlock + 1) M * M < 2 ^ 64 ->
    (Z.to_nat (ceilDiv (cur - fromBlock + 1) M) <= fuel)%nat ->
    exists s' r,
      cloop fuel client config M cur fromBlock s = (s', Returned r) /\
      Z.of_nat (length (chunksOf (history s'))) <=
        Z.of_nat (length (chunksOf (history s))) + ceilDiv (cur - fromBlock + 1) M.
Proof.
  intros HM. induction fuel as [|fuel IH]; intros fromBlock s Hr Hw Hfuel.
  - pose proof (ceilDiv_pos (cur - fromBlock + 1) M). lia.
  - pose proof (ceilDiv_pos (cur - fromBlock + 1) M ltac:(lia) ltac:(lia)) as Hn.
    assert (fromBlock + M < 2 ^ 64) as Hw1 by nia.
    destruct (ethclient.FilterLogs client
                (transferQuery config fromBlock (chunkEnd M cur fromBlock)))
      as [logs|] eqn:Hf.
    + rewrite (cloop_fetched fuel client config M cur fromBlock s logs ltac:(lia) Hf).
      rewrite u64_small by lia.
      set (s1 := updateLastProcessedBlock _ _ _ _).
      assert (history s1 = history s ++
                [CallFilterLogs fromBlock (chunkEnd M cur fromBlock);
                 CallSave (AddressHex (Address config)) (chunkEnd M cur fromBlock)])
        as Hh by apply history_chunk.
      assert (Z.of_nat (length (chunksOf (history s1)))
              = Z.of_nat (length (chunksOf (history s))) + 1) as Hlen.
      { rewrite Hh, chunksOf_app, length_app. simpl. lia. }
      destruct (Z.le_gt_cases (fromBlock + M) cur) as [Hmore|Hlast].
      * assert (ceilDiv (cur - fromBlock + 1) M
                = ceilDiv (cur - (fromBlock + M) + 1) M + 1) as Hc.
        { rewrite <- ceilDiv_step by lia. f_equal. lia. }
        destruct (IH (fromBlock + M) s1) as (s' & r & Hrun & Hlen');
          [lia|nia|lia|].
        exists s', r. split; [done|]. lia.
      * rewrite cloop_done by lia. exists s1, None. split; [done|]. lia.
    + rewrite (cloop_failed fuel client config M cur fromBlock s ltac:(lia) Hf).
      eexists _, _. split; [done|].
      rewrite history_record, chunksOf_app, length_app. simpl. lia.
Qed.

(** With a batch size of 0 the loop counter never moves: against a node
    that answers every query the loop is still running whatever the fuel. *)
Lemma cloop_zero_batch client config cur :
  (forall q, is_Some (ethclient.FilterLogs client q)) ->
  forall fuel fromBlock s,
    0 <= fromBlock <= cur -> cur < 2 ^ 64 ->
    (cloop fuel client config 0 cur fromBlock s).2 = Running.
Proof.
  intros Hnode. induction fuel as [|fuel IH]; intros fromBlock s Hr Hc.
  - simpl. destruct (Z.leb_spec fromBlock cur); [done|lia].
  - destruct (Hnode (transferQuery config fromBlock (chunkEnd 0 cur fromBlock)))
      as [logs Hf].
    rewrite (cloop_fetched fuel client config 0 cur fromBlock s logs ltac:(lia) Hf).
    rewrite Z.add_0_r, u64_small by lia. by apply IH.
Qed.

(** C10 (as the code has it). In a tick that finds [lastBlock <
    currentBlock], with a configured batch size of at least 1 and a loop
    counter that does not wrap, the chunk loop returns after at most
    [ceil((currentBlock - lastBlock) / batch_size)] iterations, whatever the
    node answers.  The batch size is not validated, and 1 is needed: with a
    batch size of 0 and a node that answers every query the loop never
    returns. *)
Theorem C10_chunk_loop_terminates batch_size client config s currentBlock :
  let lastBlock := lastBlockOf AddressHex config s in
  let n := ceilDiv (currentBlock - lastBlock) batch_size in
  ethclient.BlockNumber client = Some currentBlock ->
  0 <= lastBlock < currentBlock ->
  currentBlock < 2 ^ 64 ->
  (1 <= batch_size ->
   lastBlock + 1 + n * batch_size < 2 ^ 64 ->
   exists s' r,
     processContractEvents AddressHex batch_size (Z.to_nat n) client config s
       = (s', Returned r) /\
     Z.of_nat (length (chunksOf (history s'))) <=
       Z.of_nat (length (chunksOf (history s))) + n) /\
  ((forall q, is_Some (ethclient.FilterLogs client q)) ->
   forall fuel,
     (processContractEvents AddressHex 0 fuel client config s).2 = Running).
Proof.
  intros lastBlock n Hcur Hlast Hc. split.
  - intros HM Hw. unfold processContractEvents. rewrite Hcur.
    fold lastBlock. destruct (Z.leb_spec currentBlock lastBlock); [lia|].
    assert (0 < n) as Hn by (apply ceilDiv_pos; lia).
    assert (batch_size < 2 ^ 64) as HMs by nia.
    rewrite (u64_small batch_size), (u64_small (lastBlock + 1)) by lia.
    assert (ceilDiv (currentBlock - (lastBlock + 1) + 1) batch_size = n) as Hceil.
    { unfold n. f_equal. lia. }
    destruct (cloop_returns client config batch_size currentBlock HM
                (Z.to_nat n) (lastBlock + 1) s) as (s' & r & Hrun & Hlen).
    + lia.
    + rewrite Hceil. lia.
    + rewrite Hceil. lia.
    + exists s', r. split; [done|]. rewrite Hceil in Hlen. done.
  - intros Hnode fuel. unfold processContractEvents. rewrite Hcur.
    fold lastBlock. destruct (Z.leb_spec currentBlock lastBlock); [lia|].
    rewrite (u64_small (lastBlock + 1)) by lia.
    change (u64 0) with 0. apply cloop_zero_batch; (done || lia).
Qed.

(** ** Checkpoint writes *)

Abbreviation getLast := (getLastProcessedBlock AddressHex).







Lemma getLast_update address blockNumber s :
  getLast (updateLastProcessedBlock AddressHex address blockNumber s) address
    = blockNumber.
Proof.
  unfold getLastProcessedBlock, updateLastProcessedBlock, Save. simpl.
  by rewrite lookup_insert_eq.
Qed.







(** ** Failed fetches *)

Lemma cloop_out_of_fuel client config M cur fromBlock s :
  fromBlock <= cur -> cloop 0 client config M cur fromBlock s = (s, Running).
Proof.
  intros H. cbn [chunkLoop]. destruct (Z.leb_spec fromBlock cur); [done|lia].
Qed.






End Properties.

(** * The scenarios, run *)

Section Scenarios.

Import Scenario.


Lemma node_answers height chain q : is_Some (ethclient.FilterLogs (node height chain) q).
Proof. by eexists. Qed.


(** ** C2 *)



(** ** C3 *)

Lemma C3_witness :
  let client := node 150 [transfer1; transfer2; transfer3] in
  let s1 := (processBlockRange lowerHex client usdc 101 150 empty).1 in
  Create (transferRecord lowerHex usdc transfer2 0) s1 = (s1, false) /\
  transactions empty `prefix_of` transactions s1 /\
  processLogs lowerHex client usdc [transfer2] s1 = s1 /\
  transactions (processBlockRange lowerHex client usdc 101 150 s1).1
    = transactions s1 /\
  processLogs lowerHex client usdc ([transfer1] ++ transfer2 :: [transfer3]) empty
    = processLogs lowerHex client usdc ([transfer1] ++ [transfer3]) empty.
Proof.
  intros client s1.
  destruct (C3_write_once_idempotent_refetch lowerHex client usdc)
    as (Hdup & Hkeep & Hknown & Hagain & Hskip).
  split; [|split; [|split; [|split]]].
  - apply Hdup. apply (bool_decide_unpack _). vm_compute. exact I.
  - apply (Hkeep [transfer1; transfer2; transfer3]
             (record (CallFilterLogs 101 150) empty)).
  - apply Hknown. intros vLog Hin. apply list_elem_of_singleton in Hin as ->.
    apply (bool_decide_unpack _). vm_compute. exact I.
  - apply Hagain.
  - apply Hskip. vm_compute. reflexivity.
Defined.

(** ** C4 *)



(** ** C5 *)

(** C5, refuted.  From block [2^64 - 2] to block [2^64 - 1] with a batch
    size of 4 the claim promises one range.  The end of the first range
    wraps to block 1, the loop counter wraps to block 2, and after three
    iterations the loop is still running. *)
Lemma C5_counterexample :
  let fromBlock := 2 ^ 64 - 2 in
  let cur := 2 ^ 64 - 1 in
  (0 <= fromBlock <= cur /\ cur < 2 ^ 64) /\
  ceilDiv (cur - fromBlock + 1) 4 = 1 /\
  let r := chunkLoop lowerHex 3 (node cur []) usdc 4 cur fromBlock empty in
  r.2 = Running /\
  chunksOf (history r.1) = [(2 ^ 64 - 2, 1); (2, 5); (6, 9)].
Proof. vm_compute. repeat split; (reflexivity || discriminate). Qed.

Lemma C5_witness :
  exists s' l,
    chunkLoop lowerHex 10 (node 250 []) usdc 50 250 100 empty = (s', Returned None) /\
    chunksOf (history s') = chunksOf (history empty) ++ l /\
    tiles 50 100 250 l /\
    Z.of_nat (length l) = ceilDiv (250 - 100 + 1) 50.
Proof.
  apply (C5_chunks_tile_the_range lowerHex (node 250 []) usdc 50 250 100 empty 10).
  - apply node_answers.
  - lia.
  - lia.
  - vm_compute. reflexivity.
  - vm_compute. lia.
Defined.

(** ** C6 *)


(** ** C7 *)


(** ** C8 *)

Lemma C8_witness :
  exists sig t1 t2 topics tx,
    types.Topics transfer1 = sig :: t1 :: t2 :: topics /\
    transactions (processTransferEvent lowerHex (node 150 []) usdc transfer1 empty).1
      = transactions empty ++ [tx] /\
    length (drop 12 t1) = common.AddressLength /\
    length (drop 12 t2) = common.AddressLength /\
    models.FromAddress tx = lowerHex (drop 12 t1) /\
    models.ToAddress tx = lowerHex (drop 12 t2) /\
    let amount := bigEndian (take 32 (types.Data transfer1)) in
    0 <= amount < 2 ^ 256 /\
    models.Amount tx = bigString amount /\
    (fun u => Z.of_N (N.of_uint u)) <$> NilZero.uint_of_string (models.Amount tx)
      = Some amount.
Proof.
  apply (C8_decoded_fields lowerHex (node 150 []) usdc transfer1 empty).
  - repeat constructor.
  - vm_compute. reflexivity.
Defined.

(** ** C9 *)



(** ** C10 *)

(** C10, refuted.  A contract registered from block [2^64 - 3], no
    checkpoint, chain height [2^64 - 1], batch size 4: the claim promises
    at most one iteration, and the loop is still running after a thousand,
    the loop counter having wrapped to block 2. *)
Lemma C10_counterexample :
  let lastBlock := lastBlockOf lowerHex usdcTop empty in
  let currentBlock := 2 ^ 64 - 1 in
  (0 <= lastBlock < currentBlock /\ currentBlock < 2 ^ 64) /\
  ceilDiv (currentBlock - lastBlock) 4 = 1 /\
  (processContractEvents lowerHex 4 1 (node currentBlock []) usdcTop empty).2
    = Running /\
  let r := processContractEvents lowerHex 4 1000 (node currentBlock []) usdcTop empty in
  r.2 = Running /\ length (chunksOf (history r.1)) = 1000%nat.
Proof. vm_compute. repeat split; (reflexivity || discriminate). Qed.

Lemma C10_witness :
  (exists s' r,
     processContractEvents lowerHex 50 (Z.to_nat (ceilDiv (250 - 100) 50))
       (node 250 []) usdc empty = (s', Returned r) /\
     Z.of_nat (length (chunksOf (history s'))) <=
       Z.of_nat (length (chunksOf (history empty))) + ceilDiv (250 - 100) 50) /\
  (processContractEvents lowerHex 0 1000 (node 250 []) usdc empty).2 = Running.
Proof.
  destruct (C10_chunk_loop_terminates lowerHex 50 (node 250 []) usdc empty 250)
    as [Hreturns Hzero].
  - reflexivity.
  - change (0 <= 100 < 250). lia.
  - lia.
  - split.
    + apply Hreturns; [lia|vm_compute; reflexivity].
    + apply Hzero. apply node_answers.
Defined.

End Scenarios.

(** * More properties *)

(** ** Hexadecimal strings *)

Lemma fromHexChar_hexDigit (c : byte) :
  hex.fromHexChar (common.hexDigit (Byte.to_N c / 16)) = Some (Byte.to_N c / 16)%N /\
  hex.fromHexChar (common.hexDigit (Byte.to_N c mod 16)) = Some (Byte.to_N c mod 16)%N /\
  hex.byteOf (Byte.to_N c / 16) (Byte.to_N c mod 16) = c.
Proof. destruct c; vm_compute; repeat split; reflexivity. Qed.

Lemma DecodeString_hexEncode (b : list byte) :
  hex.DecodeString (common.hexEncode b) = b.
Proof.
  induction b as [|c b IH]; [done|].
  destruct (fromHexChar_hexDigit c) as (Hhi & Hlo & Hc).
  cbn [common.hexEncode hex.DecodeString]. rewrite Hhi, Hlo, Hc, IH. done.
Qed.

Lemma length_hexEncode (b : list byte) :
  String.length (common.hexEncode b) = (2 * length b)%nat.
Proof. induction b as [|c b IH]; [done|]. cbn [common.hexEncode String.length length]. lia. Qed.

Lemma substring_all (s : string) : String.substring 0 (String.length s) s = s.
Proof. induction s as [|c s IH]; [done|]. simpl. by rewrite IH. Qed.

Lemma FromHex_0x (t : string) :
  gethcommon.FromHex ("0x" ++ t) =
  hex.DecodeString (if Nat.odd (String.length t) then String "0" t else t).
Proof.
  unfold gethcommon.FromHex, gethcommon.Hex2Bytes.
  change ("0x" ++ t)%string with (String "0" (String "x" t)).
  change (gethcommon.has0xPrefix (String "0" (String "x" t))) with true.
  cbv iota.
  change (String.length (String "0" (String "x" t))) with (S (S (String.length t))).
  replace (S (S (String.length t)) - 2)%nat with (String.length t) by lia.
  change (substring 2 (String.length t) (String "0" (String "x" t)))
    with (substring 0 (String.length t) t).
  by rewrite substring_all.
Qed.

Lemma FromHex_HashHex (h : list byte) :
  gethcommon.FromHex (common.HashHex h) = h.
Proof.
  unfold common.HashHex. rewrite FromHex_0x, length_hexEncode.
  replace (Nat.odd (2 * length h)) with false.
  - apply DecodeString_hexEncode.
  - symmetry. rewrite <- Nat.negb_even, Nat.even_mul. done.
Qed.

(** X1.  The [tx_hash] string of a record identifies the transaction: the
    string [Hash.Hex] gives decodes back, with [FromHex], to the bytes it
    was made from, so two logs get the same [tx_hash] only if their
    transaction hashes are the same bytes. *)
Theorem X1_tx_hash_identifies_the_transaction :
  (forall h, gethcommon.FromHex (common.HashHex h) = h) /\
  (forall h1 h2, common.HashHex h1 = common.HashHex h2 -> h1 = h2) /\
  (forall AddressHex config vLog1 vLog2 blockTime1 blockTime2,
     models.TxHash (transferRecord AddressHex config vLog1 blockTime1)
       = models.TxHash (transferRecord AddressHex config vLog2 blockTime2) ->
     types.TxHash vLog1 = types.TxHash vLog2).
Proof.
  assert (forall h1 h2, common.HashHex h1 = common.HashHex h2 -> h1 = h2) as Hinj.
  { intros h1 h2 Heq. rewrite <- (FromHex_HashHex h1), <- (FromHex_HashHex h2).
    by rewrite Heq. }
  split; [apply FromHex_HashHex|]. split; [exact Hinj|].
  intros AddressHex config vLog1 vLog2 blockTime1 blockTime2. apply Hinj.
Qed.

Lemma length_BytesToAddress b : length (common.BytesToAddress b) = common.AddressLength.
Proof.
  unfold common.BytesToAddress, common.AddressLength.
  case_bool_decide; rewrite length_app, length_replicate, ?length_drop; lia.
Qed.

Lemma BytesToAddress_exact b :
  length b = common.AddressLength -> common.BytesToAddress b = b.
Proof.
  unfold common.BytesToAddress, common.AddressLength. intros Hlen.
  rewrite bool_decide_eq_false_2 by lia. by rewrite Hlen.
Qed.

Lemma BytesToHash_exact b :
  length b = common.HashLength -> gethcommon.BytesToHash b = b.
Proof.
  unfold gethcommon.BytesToHash, common.HashLength. intros Hlen.
  rewrite bool_decide_eq_false_2 by lia. by rewrite Hlen.
Qed.

(** The signature constant is what the source computes with [HexToHash]. *)
Lemma TransferSignature_HexToHash :
  gethcommon.HexToHash
    "0xddf252ad1be2c89b69c2b068fc378daa952ba7f163c4a11628f55a4df523b3ef"
  = TransferSignature.
Proof. vm_compute. reflexivity. Qed.

(** A string that starts with a character that is no hexadecimal digit
    decodes to nothing. *)
Lemma FromHex_not_hex c s :
  hex.fromHexChar c = None -> gethcommon.FromHex (String c s) = [].
Proof.
  intros Hc. unfold gethcommon.FromHex, gethcommon.Hex2Bytes.
  assert (gethcommon.has0xPrefix (String c s) = false) as ->.
  { destruct s as [|c1 s]; [done|]. cbn [gethcommon.has0xPrefix].
    destruct (Ascii.eqb_spec c "0") as [->|]; [|done]. vm_compute in Hc. done. }
  destruct (Nat.odd (String.length (String c s))).
  - cbn [hex.DecodeString]. rewrite Hc.
    by destruct (hex.fromHexChar "0").
  - destruct s as [|q s]; [done|]. cbn [hex.DecodeString]. by rewrite Hc.
Qed.

(** X2.  [HexToAddress] never fails.  Whatever the string, the result has
    20 bytes; the plain hexadecimal rendering of an address reads back as
    that address; and a string whose first character is no hexadecimal
    digit gives the zero address. *)
Theorem X2_HexToAddress_total :
  (forall s, length (gethcommon.HexToAddress s) = common.AddressLength) /\
  (forall a, length a = common.AddressLength ->
             gethcommon.HexToAddress (common.HashHex a) = a) /\
  (forall c s, hex.fromHexChar c = None ->
               gethcommon.HexToAddress (String c s) = replicate 20 x00).
Proof.
  split; [|split].
  - intros s. apply length_BytesToAddress.
  - intros a Hlen. unfold gethcommon.HexToAddress.
    rewrite FromHex_HashHex. by apply BytesToAddress_exact.
  - intros c s Hc. unfold gethcommon.HexToAddress. by rewrite FromHex_not_hex.
Qed.

(** ** The configured contracts *)

Lemma loadToken_Some token contract :
  loadToken token = Some contract <->
  exists name address startBlock,
    describes token name address startBlock /\
    contract = contractOf name address startBlock.
Proof.
  split.
  - unfold loadToken. destruct token as [| | | | | |tokenMap]; try done.
    destruct (viper.index tokenMap "name") as [|name| | | | |] eqn:Hn; try done.
    destruct (viper.index tokenMap "address") as [|address| | | | |] eqn:Ha; try done.
    destruct (viper.index tokenMap "start_block") as [| |startBlock| | | |] eqn:Hs;
      try done.
    intros [= <-]. exists name, address, startBlock. split; [|done].
    by exists tokenMap.
  - intros (name & address & startBlock & (tokenMap & -> & Hn & Ha & Hs) & ->).
    unfold loadToken. by rewrite Hn, Ha, Hs.
Qed.

Lemma loadToken_None token :
  loadToken token = None <->
  forall name address startBlock, ~ describes token name address startBlock.
Proof.
  split.
  - intros Hnone name address startBlock Hd.
    assert (loadToken token = Some (contractOf name address startBlock)) as Hsome.
    { apply loadToken_Some. by exists name, address, startBlock. }
    congruence.
  - intros Hno. destruct (loadToken token) as [contract|] eqn:Hl; [|done].
    apply loadToken_Some in Hl as (name & address & startBlock & Hd & _).
    by destruct (Hno name address startBlock).
Qed.

Lemma loadTokens_Some tokens contracts :
  forall acc,
    Forall2 (fun token contract => loadToken token = Some contract) tokens contracts ->
    loadTokens tokens acc = Some (acc ++ contracts).
Proof.
  revert contracts. induction tokens as [|token tokens IH];
    intros contracts acc Hall.
  - apply Forall2_nil_inv_l in Hall as ->. by rewrite app_nil_r.
  - apply Forall2_cons_inv_l in Hall as (contract & contracts' & Hl & Hall & ->).
    cbn [loadTokens]. rewrite Hl, (IH contracts' _ Hall). by rewrite <- app_assoc.
Qed.

Lemma loadTokens_None tokens :
  forall acc,
    loadTokens tokens acc = None <-> exists token, token ∈ tokens /\ loadToken token = None.
Proof.
  induction tokens as [|token tokens IH]; intros acc; cbn [loadTokens].
  - split; [done|]. intros (token & Hin & _). by apply elem_of_nil in Hin.
  - destruct (loadToken token) as [contract|] eqn:Hl.
    + rewrite IH. split.
      * intros (t & Hin & Ht). exists t. split; [|done]. apply elem_of_cons. by right.
      * intros (t & Hin & Ht). apply elem_of_cons in Hin as [->|Hin]; [congruence|].
        by exists t.
    + split; [|done]. intros _. exists token. split; [|done].
      apply elem_of_cons. by left.
Qed.

(** X3.  [loadContractsFromConfig] returns no contract when the key is
    absent, and otherwise one contract per entry, in the order of the
    entries: the name as written, the address read with [HexToAddress],
    the start block converted to [uint64].  Keys other than [name],
    [address] and [start_block] are ignored. *)
Theorem X3_loadContractsFromConfig_loads_every_entry :
  loadContractsFromConfig viper.Nil = Some [] /\
  forall tokens entries,
    Forall2 (fun token (e : string * string * Z) => describes token e.1.1 e.1.2 e.2)
      tokens entries ->
    loadContractsFromConfig (viper.List tokens)
      = Some ((fun e : string * string * Z => contractOf e.1.1 e.1.2 e.2) <$> entries).
Proof.
  split; [done|]. intros tokens entries Hall.
  cbn [loadContractsFromConfig].
  rewrite (loadTokens_Some tokens
             ((fun e : string * string * Z => contractOf e.1.1 e.1.2 e.2) <$> entries));
    [done|].
  induction Hall as [|token e tokens entries Hd Hall IH]; [constructor|].
  rewrite fmap_cons. constructor; [|done].
  apply loadToken_Some. by exists e.1.1, e.1.2, e.2.
Qed.

(** X4.  One malformed entry is fatal for all: the load panics exactly
    when [contracts.tokens] is neither absent nor a list, or when one
    element of the list is not a map with a string [name], a string
    [address] and an integer [start_block]; no contract of the other
    entries is returned then.  An entry without [start_block] is such an
    element. *)
Theorem X4_loadContractsFromConfig_panics :
  (forall tokens,
     loadContractsFromConfig tokens = None <->
     match tokens with
     | viper.Nil => False
     | viper.List tokensList =>
         exists token,
           token ∈ tokensList /\
           forall name address startBlock,
             ~ describes token name address startBlock
     | _ => True
     end) /\
  (forall before tokenMap after,
     viper.index tokenMap "start_block" = viper.Nil ->
     loadContractsFromConfig (viper.List (before ++ viper.Map tokenMap :: after))
       = None).
Proof.
  assert (forall tokens,
     loadContractsFromConfig tokens = None <->
     match tokens with
     | viper.Nil => False
     | viper.List tokensList =>
         exists token,
           token ∈ tokensList /\
           forall name address startBlock,
             ~ describes token name address startBlock
     | _ => True
     end) as Hiff.
  { intros [| | | | |tokensList|]; cbn [loadContractsFromConfig]; try done.
    rewrite loadTokens_None. split.
    - intros (token & Hin & Hnone). exists token. split; [done|].
      by apply loadToken_None.
    - intros (token & Hin & Hno). exists token. split; [done|].
      by apply loadToken_None. }
  split; [exact Hiff|].
  intros before tokenMap after Hmissing. apply Hiff.
  exists (viper.Map tokenMap). split.
  - apply elem_of_app. right. apply elem_of_cons. by left.
  - intros name address startBlock (m & [= <-] & _ & _ & Hs). congruence.
Qed.

(** ** What a run of a monitor may do to the store

    Every change a monitor makes to the store is a journal entry for a
    fetch, an insert of the record of a well-shaped log that the node
    returned for a Transfer query of this contract, or a checkpoint write
    of a height not above the one the node reported.  A relation between
    stores that is reflexive, transitive and kept by these three steps
    therefore relates the store before a run to the store after it. *)

Section Runs.

Context (AddressHex : common.Address -> string) (batch_size : Z).
Context (config : ContractConfig).

Variable ok : ethclient.Client -> Prop.
Variable R : State -> State -> Prop.

Hypothesis R_refl : forall s, R s s.
Hypothesis R_trans : forall s1 s2 s3, R s1 s2 -> R s2 s3 -> R s1 s3.
Hypothesis R_record :
  forall fromBlock toBlock s, R s (record (CallFilterLogs fromBlock toBlock) s).
Hypothesis R_create :
  forall client fromBlock toBlock logs vLog blockTime s,
    ok client ->
    ethclient.FilterLogs client (transferQuery config fromBlock toBlock) = Some logs ->
    vLog ∈ logs ->
    wellShaped vLog ->
    ethclient.BlockByNumber client (int64 (types.BlockNumber vLog)) = Some blockTime ->
    R s (Create (transferRecord AddressHex config vLog blockTime) s).1.
Hypothesis R_save :
  forall client currentBlock blockNumber s,
    ok client ->
    ethclient.BlockNumber client = Some currentBlock ->
    blockNumber <= currentBlock ->
    R s (updateLastProcessedBlock AddressHex (Address config) blockNumber s).

Lemma pte_rel client fromBlock toBlock logs vLog s :
  ok client ->
  ethclient.FilterLogs client (transferQuery config fromBlock toBlock) = Some logs ->
  vLog ∈ logs ->
  R s (processTransferEvent AddressHex client config vLog s).1.
Proof.
  intros Hok Hf Hin. unfold processTransferEvent.
  destruct (bool_decide (length (types.Topics vLog) < 3)%nat) eqn:Ht; [apply R_refl|].
  destruct (bool_decide (length (types.Data vLog) < 32)%nat) eqn:Hd; [apply R_refl|].
  cbn [orb].
  destruct (ethclient.BlockByNumber client (int64 (types.BlockNumber vLog)))
    as [blockTime|] eqn:Hb; [|apply R_refl].
  assert (wellShaped vLog) as Hshape.
  { apply bool_decide_eq_false in Ht, Hd. unfold wellShaped. lia. }
  pose proof (R_create client fromBlock toBlock logs vLog blockTime s
                Hok Hf Hin Hshape Hb) as HR.
  by destruct (Create (transferRecord AddressHex config vLog blockTime) s)
    as [s' []].
Qed.

Lemma plogs_rel client fromBlock toBlock logs :
  ok client ->
  ethclient.FilterLogs client (transferQuery config fromBlock toBlock) = Some logs ->
  forall logs' s,
    (forall vLog, vLog ∈ logs' -> vLog ∈ logs) ->
    R s (processLogs AddressHex client config logs' s).
Proof.
  intros Hok Hf. induction logs' as [|vLog logs' IH]; intros s Hsub.
  - apply R_refl.
  - rewrite plogs_cons. eapply R_trans.
    + apply (pte_rel client fromBlock toBlock logs vLog s Hok Hf).
      apply Hsub, elem_of_cons. by left.
    + apply IH. intros v Hv. apply Hsub, elem_of_cons. by right.
Qed.

Lemma pbr_rel client fromBlock toBlock s :
  ok client ->
  R s (processBlockRange AddressHex client config fromBlock toBlock s).1.
Proof.
  intros Hok.
  destruct (ethclient.FilterLogs client (transferQuery config fromBlock toBlock))
    as [logs|] eqn:Hf.
  - rewrite (pbr_fetched AddressHex client config fromBlock toBlock s logs Hf).
    eapply R_trans; [apply R_record|].
    by apply (plogs_rel client fromBlock toBlock logs Hok Hf).
  - rewrite (pbr_failed AddressHex client config fromBlock toBlock s Hf).
    apply R_record.
Qed.

Lemma chunkEnd_le M currentBlock fromBlock :
  chunkEnd M currentBlock fromBlock <= currentBlock.
Proof.
  unfold chunkEnd.
  destruct (currentBlock <? u64 (u64 (fromBlock + M) - 1)) eqn:Hc; lia.
Qed.

Lemma cloop_rel client M currentBlock :
  ok client ->
  ethclient.BlockNumber client = Some currentBlock ->
  forall fuel fromBlock s,
    R s (chunkLoop AddressHex fuel client config M currentBlock fromBlock s).1.
Proof.
  intros Hok Hcur. induction fuel as [|fuel IH]; intros fromBlock s.
  - destruct (Z_le_gt_dec fromBlock currentBlock) as [Hle|Hgt].
    + rewrite cloop_out_of_fuel by done. apply R_refl.
    + rewrite cloop_done by lia. apply R_refl.
  - destruct (Z_le_gt_dec fromBlock currentBlock) as [Hle|Hgt].
    2: { rewrite cloop_done by lia. apply R_refl. }
    destruct (ethclient.FilterLogs client
                (transferQuery config fromBlock (chunkEnd M currentBlock fromBlock)))
      as [logs|] eqn:Hf.
    + rewrite (cloop_fetched AddressHex fuel client config M currentBlock fromBlock
                 s logs Hle Hf).
      eapply R_trans; [|apply IH].
      eapply R_trans; [apply R_record|].
      eapply R_trans.
      * by apply (plogs_rel client fromBlock (chunkEnd M currentBlock fromBlock)
                    logs Hok Hf).
      * apply (R_save client currentBlock); [done|done|apply chunkEnd_le].
    + rewrite (cloop_failed AddressHex fuel client config M currentBlock fromBlock
                 s Hle Hf).
      apply R_record.
Qed.

Lemma tick_rel fuel client s :
  ok client ->
  R s (processContractEvents AddressHex batch_size fuel client config s).1.
Proof.
  intros Hok. unfold processContractEvents.
  destruct (ethclient.BlockNumber client) as [currentBlock|] eqn:Hcur;
    [|apply R_refl].
  destruct (currentBlock <=? lastBlockOf AddressHex config s); [apply R_refl|].
  by apply cloop_rel.
Qed.

Lemma monitor_rel fuel signals :
  forall s,
    (forall client, Tick client ∈ signals -> ok client) ->
    R s (monitorContract AddressHex batch_size fuel config signals s).1.1.
Proof.
  induction signals as [|[|client] signals IH]; intros s Hok; cbn [monitorContract].
  - apply R_refl.
  - apply R_refl.
  - pose proof (tick_rel fuel client s) as Htick.
    destruct (processContractEvents AddressHex batch_size fuel client config s)
      as [s' [|err]].
    + apply Htick, Hok, elem_of_cons. by left.
    + specialize (IH s').
      destruct (monitorContract AddressHex batch_size fuel config signals s')
        as [[s'' printed] st].
      eapply R_trans.
      * apply Htick, Hok, elem_of_cons. by left.
      * apply IH. intros c Hc. apply Hok, elem_of_cons. by right.
Qed.

End Runs.

(** ** Invariants of a monitor *)

Lemma known_Create tx s :
  known (Create tx s).1 = known s \/
  ((models.TxHash tx ∉ known s) /\ known (Create tx s).1 = known s ++ [models.TxHash tx]).
Proof.
  unfold Create, known.
  destruct (bool_decide (models.TxHash tx ∈ models.TxHash <$> transactions s)) eqn:Hd.
  - by left.
  - right. apply bool_decide_eq_false in Hd. split; [done|].
    cbn. by rewrite fmap_app.
Qed.

(** X7.  A monitor only ever appends rows to the transactions table: the
    table before a run is a prefix of the table after it, whatever the node
    answers.  If no two rows shared a transaction hash before the run, none
    do after it. *)
Theorem X7_rows_are_appended_and_stay_distinct
    (AddressHex : common.Address -> string) (batch_size : Z)
    (fuel : nat) (config : ContractConfig) (signals : list Signal) (s : State) :
  let s' := (monitorContract AddressHex batch_size fuel config signals s).1.1 in
  transactions s `prefix_of` transactions s' /\
  (NoDup (known s) -> NoDup (known s')).
Proof.
  apply (monitor_rel AddressHex batch_size config (fun _ => True)
           (fun s s' => transactions s `prefix_of` transactions s' /\
                        (NoDup (known s) -> NoDup (known s')))).
  - done.
  - intros s1 s2 s3 [Hp1 Hn1] [Hp2 Hn2]. split; [by etrans|auto].
  - done.
  - intros client fromBlock toBlock logs vLog blockTime s0 _ _ _ _ _.
    split; [apply Create_prefix|].
    intros Hnd.
    destruct (known_Create (transferRecord AddressHex config vLog blockTime) s0)
      as [->|[Hnew ->]]; [done|].
    apply NoDup_app. split; [done|]. split.
    + intros h Hh Hin. apply list_elem_of_singleton in Hin as ->. done.
    + apply NoDup_singleton.
  - done.
  - done.
Qed.

(** X8.  A monitor writes no checkpoint but its own: the Progress Store
    entry of every other contract is after the run what it was before, and
    so is what [getLastProcessedBlock] returns for it. *)
Theorem X8_other_checkpoints_are_untouched
    (AddressHex : common.Address -> string) (batch_size : Z)
    (fuel : nat) (config : ContractConfig) (signals : list Signal) (s : State) :
  let s' := (monitorContract AddressHex batch_size fuel config signals s).1.1 in
  (forall contract,
     contract <> AddressHex (Address config) ->
     block_progress s' !! contract = block_progress s !! contract) /\
  (forall other,
     AddressHex other <> AddressHex (Address config) ->
     getLastProcessedBlock AddressHex s' other
       = getLastProcessedBlock AddressHex s other).
Proof.
  assert (forall contract,
     contract <> AddressHex (Address config) ->
     block_progress (monitorContract AddressHex batch_size fuel config signals s).1.1
       !! contract = block_progress s !! contract) as Hkeys.
  { apply (monitor_rel AddressHex batch_size config (fun _ => True)
             (fun s s' => forall contract,
                contract <> AddressHex (Address config) ->
                block_progress s' !! contract = block_progress s !! contract)).
    - done.
    - intros s1 s2 s3 H1 H2 contract Hne. by rewrite H2, H1.
    - done.
    - intros client fromBlock toBlock logs vLog blockTime s0 _ _ _ _ _ contract _.
      by rewrite (proj1 (Create_frame _ s0)).
    - intros client currentBlock blockNumber s0 _ _ _ contract Hne.
      cbn. by rewrite lookup_insert_ne.
    - done. }
  split; [exact Hkeys|].
  intros other Hne. unfold getLastProcessedBlock. by rewrite Hkeys.
Qed.

(** X9.  Every row a monitor adds is the record of a well-shaped log that
    the node of one of the ticks returned for a Transfer query of the
    monitored contract, stamped with the time that node gave for the block
    of the log; it carries the address and the name of the monitored
    contract. *)
Theorem X9_rows_come_from_the_contract_s_logs
    (AddressHex : common.Address -> string) (batch_size : Z)
    (fuel : nat) (config : ContractConfig) (signals : list Signal) (s : State) :
  forall tx,
    tx ∈ transactions (monitorContract AddressHex batch_size fuel config signals s).1.1 ->
    tx ∈ transactions s \/
    (exists client fromBlock toBlock logs vLog blockTime,
       Tick client ∈ signals /\
       ethclient.FilterLogs client (transferQuery config fromBlock toBlock)
         = Some logs /\
       vLog ∈ logs /\
       wellShaped vLog /\
       ethclient.BlockByNumber client (int64 (types.BlockNumber vLog))
         = Some blockTime /\
       tx = transferRecord AddressHex config vLog blockTime) /\
    models.ContractAddress tx = AddressHex (Address config) /\
    models.TokenName tx = Name config.
Proof.
  apply (monitor_rel AddressHex batch_size config
           (fun client => Tick client ∈ signals)
           (fun s s' => forall tx,
              tx ∈ transactions s' ->
              tx ∈ transactions s \/
              (exists client fromBlock toBlock logs vLog blockTime,
                 Tick client ∈ signals /\
                 ethclient.FilterLogs client (transferQuery config fromBlock toBlock)
                   = Some logs /\
                 vLog ∈ logs /\
                 wellShaped vLog /\
                 ethclient.BlockByNumber client (int64 (types.BlockNumber vLog))
                   = Some blockTime /\
                 tx = transferRecord AddressHex config vLog blockTime) /\
              models.ContractAddress tx = AddressHex (Address config) /\
              models.TokenName tx = Name config)).
  - intros s0 tx Hin. by left.
  - intros s1 s2 s3 H1 H2 tx Hin.
    destruct (H2 tx Hin) as [Hin2|Hnew]; [by apply H1|by right].
  - intros fromBlock toBlock s0 tx Hin. by left.
  - intros client fromBlock toBlock logs vLog blockTime s0 Hok Hf Hin Hshape Hb tx Htx.
    unfold Create in Htx.
    destruct (bool_decide _) in Htx; [by left|].
    cbn in Htx. apply elem_of_app in Htx as [Hold|Hnew]; [by left|].
    apply list_elem_of_singleton in Hnew as ->. right.
    split; [|done].
    by exists client, fromBlock, toBlock, logs, vLog, blockTime.
  - intros client currentBlock blockNumber s0 _ _ _ tx Hin. by left.
  - done.
Qed.

(** X10.  The checkpoint of a contract is never set above the height the
    node reported: if no tick of a run saw a height above [height], the
    checkpoint after the run is at most [height], or is the checkpoint the
    run started from.  This holds for every batch size. *)
Theorem X10_checkpoint_never_passes_the_chain_height
    (AddressHex : common.Address -> string) (batch_size : Z)
    (fuel : nat) (config : ContractConfig) (signals : list Signal) (s : State)
    (height : Z) :
  (forall client currentBlock,
     Tick client ∈ signals ->
     ethclient.BlockNumber client = Some currentBlock ->
     currentBlock <= height) ->
  let s' := (monitorContract AddressHex batch_size fuel config signals s).1.1 in
  getLastProcessedBlock AddressHex s' (Address config)
    <= Z.max (getLastProcessedBlock AddressHex s (Address config)) height.
Proof.
  intros Hheight.
  apply (monitor_rel AddressHex batch_size config
           (fun client => forall currentBlock,
              ethclient.BlockNumber client = Some currentBlock ->
              currentBlock <= height)
           (fun s s' =>
              getLastProcessedBlock AddressHex s' (Address config)
                <= Z.max (getLastProcessedBlock AddressHex s (Address config)) height)).
  - intros s0. lia.
  - intros s1 s2 s3 H1 H2. lia.
  - intros fromBlock toBlock s0. cbn. unfold getLastProcessedBlock. cbn. lia.
  - intros client fromBlock toBlock logs vLog blockTime s0 _ _ _ _ _.
    unfold getLastProcessedBlock.
    rewrite (proj1 (Create_frame _ s0)). lia.
  - intros client currentBlock blockNumber s0 Hok Hcur Hle.
    rewrite getLast_update. specialize (Hok currentBlock Hcur). lia.
  - intros client Hin currentBlock Hcur. by apply (Hheight client).
Qed.

(** ** Ticks that find nothing to do, and ticks that catch up *)

Lemma lastBlockOf_ge config (AddressHex : common.Address -> string) s :
  StartBlock config <= lastBlockOf AddressHex config s /\
  getLastProcessedBlock AddressHex s (Address config) <= lastBlockOf AddressHex config s.
Proof.
  unfold lastBlockOf.
  destruct (getLastProcessedBlock AddressHex s (Address config) <? StartBlock config)
    eqn:Hc; lia.
Qed.

Lemma tick_idle (AddressHex : common.Address -> string) batch_size fuel client config s :
  match ethclient.BlockNumber client with
  | None => True
  | Some currentBlock => currentBlock <= lastBlockOf AddressHex config s
  end ->
  processContractEvents AddressHex batch_size fuel client config s =
    (s, Returned match ethclient.BlockNumber client with
                 | None => Some ErrBlockNumber
                 | Some _ => None
                 end).
Proof.
  unfold processContractEvents.
  destruct (ethclient.BlockNumber client) as [currentBlock|]; [|done].
  intros Hle. by replace (currentBlock <=? lastBlockOf AddressHex config s) with true by lia.
Qed.

Lemma monitor_idle
    (AddressHex : common.Address -> string) (batch_size : Z)
    (fuel : nat) (config : ContractConfig) (signals : list Signal) (s : State) :
  (forall client,
     Tick client ∈ signals ->
     match ethclient.BlockNumber client with
     | None => True
     | Some currentBlock => currentBlock <= lastBlockOf AddressHex config s
     end) ->
  exists printed st,
    monitorContract AddressHex batch_size fuel config signals s = (s, printed, st) /\
    Forall (fun e => e = ErrBlockNumber) printed /\
    st <> InTick.
Proof.
  induction signals as [|[|client] signals IH]; intros Hidle; cbn [monitorContract].
  - by exists [], Waiting.
  - by exists [], Exited.
  - rewrite tick_idle by (apply Hidle, elem_of_cons; by left).
    destruct IH as (printed & st & -> & Hp & Hst).
    { intros c Hc. apply Hidle, elem_of_cons. by right. }
    destruct (ethclient.BlockNumber client).
    + by exists printed, st.
    + exists (ErrBlockNumber :: printed), st. split; [done|]. split; [|done].
      by constructor.
Qed.

(** X6.  A tick reads and writes nothing when the node cannot give the
    chain height, or gives one that is not above [max(checkpoint,
    StartBlock)]: over any sequence of such ticks the store, journal
    included, is unchanged, the only errors printed are those of the
    unreachable node, and the monitor is never left inside a tick. *)
Theorem X6_idle_ticks_leave_the_store_alone
    (AddressHex : common.Address -> string) (batch_size : Z)
    (fuel : nat) (config : ContractConfig) (signals : list Signal) (s : State) :
  (forall client,
     Tick client ∈ signals ->
     match ethclient.BlockNumber client with
     | None => True
     | Some currentBlock => currentBlock <= lastBlockOf AddressHex config s
     end) ->
  exists printed st,
    monitorContract AddressHex batch_size fuel config signals s = (s, printed, st) /\
    Forall (fun e => e = ErrBlockNumber) printed /\
    st <> InTick.
Proof. apply monitor_idle. Qed.

(** X5.  A negative [start_block] in the configuration is accepted: the
    conversion to [uint64] turns it into a height of at least 2^63, and
    the monitor of that contract does nothing at any chain height below
    2^63. *)
Theorem X5_negative_start_block_is_never_reached
    (AddressHex : common.Address -> string) (batch_size : Z) (fuel : nat)
    (name address : string) (startBlock : Z) (signals : list Signal) (s : State) :
  - 2 ^ 63 <= startBlock < 0 ->
  (forall client currentBlock,
     Tick client ∈ signals ->
     ethclient.BlockNumber client = Some currentBlock ->
     currentBlock < 2 ^ 63) ->
  exists config,
    loadContractsFromConfig (viper.List [tokenEntry name address startBlock])
      = Some [config] /\
    StartBlock config = 2 ^ 64 + startBlock /\
    (monitorContract AddressHex batch_size fuel config signals s).1.1 = s.
Proof.
  intros Hneg Hheight. exists (contractOf name address startBlock).
  split; [done|].
  assert (StartBlock (contractOf name address startBlock) = 2 ^ 64 + startBlock)
    as Hstart.
  { cbn. unfold u64.
    rewrite <- (Z.mod_add startBlock 1 (2 ^ 64)) by lia.
    rewrite Z.mod_small; lia. }
  split; [done|].
  destruct (monitor_idle AddressHex batch_size fuel
              (contractOf name address startBlock) signals s)
    as (printed & st & -> & _); [|done].
  intros client Hin.
  destruct (ethclient.BlockNumber client) as [currentBlock|] eqn:Hcur; [|done].
  specialize (Hheight client currentBlock Hin Hcur).
  pose proof (lastBlockOf_ge (contractOf name address startBlock) AddressHex s)
    as [Hge _].
  rewrite Hstart in Hge. lia.
Qed.



(** ** A log whose block cannot be read *)


(** ** Runs, one after the other *)

(** X13.  Running a monitor over two sequences of signals in a row is
    running it over the second from the store the first left, as long as
    the first ends waiting in [select]; once the stop signal is received or
    a tick does not return, the later signals have no effect.  In
    particular nothing that follows a stop signal is processed. *)
Theorem X13_runs_compose
    (AddressHex : common.Address -> string) (batch_size : Z)
    (fuel : nat) (config : ContractConfig) :
  (forall signals1 signals2 s,
     monitorContract AddressHex batch_size fuel config (signals1 ++ signals2) s =
       match monitorContract AddressHex batch_size fuel config signals1 s with
       | (s1, printed1, Waiting) =>
           let '(s2, printed2, st) :=
             monitorContract AddressHex batch_size fuel config signals2 s1 in
           (s2, printed1 ++ printed2, st)
       | stopped => stopped
       end) /\
  (forall signals1 signals2 s,
     monitorContract AddressHex batch_size fuel config (signals1 ++ Stop :: signals2) s
       = monitorContract AddressHex batch_size fuel config (signals1 ++ [Stop]) s) /\
  (forall signals s,
     (monitorContract AddressHex batch_size fuel config signals s).2 = Waiting ->
     Stop ∉ signals).
Proof.
  assert (forall signals1 signals2 s,
     monitorContract AddressHex batch_size fuel config (signals1 ++ signals2) s =
       match monitorContract AddressHex batch_size fuel config signals1 s with
       | (s1, printed1, Waiting) =>
           let '(s2, printed2, st) :=
             monitorContract AddressHex batch_size fuel config signals2 s1 in
           (s2, printed1 ++ printed2, st)
       | stopped => stopped
       end) as Happ.
  { induction signals1 as [|[|client] signals1 IH]; intros signals2 s.
    - cbn. by destruct (monitorContract _ _ _ _ signals2 s) as [[s2 printed2] st].
    - done.
    - rewrite <- app_comm_cons. cbn [monitorContract].
      destruct (processContractEvents AddressHex batch_size fuel client config s)
        as [s' [|err]]; [done|].
      rewrite IH.
      destruct (monitorContract AddressHex batch_size fuel config signals1 s')
        as [[s1 printed1] [| |]]; try done.
      destruct (monitorContract AddressHex batch_size fuel config signals2 s1)
        as [[s2 printed2] st].
      by destruct err. }
  split; [exact Happ|]. split.
  - intros signals1 signals2 s. rewrite !Happ.
    destruct (monitorContract AddressHex batch_size fuel config signals1 s)
      as [[s1 printed1] [| |]]; done.
  - induction signals as [|[|client] signals IH]; intros s Hw.
    + apply not_elem_of_nil.
    + done.
    + cbn [monitorContract] in Hw.
      destruct (processContractEvents AddressHex batch_size fuel client config s)
        as [s' [|err]]; [done|].
      specialize (IH s').
      destruct (monitorContract AddressHex batch_size fuel config signals s')
        as [[s'' printed] st].
      cbn in Hw. subst st. intros Hin.
      apply elem_of_cons in Hin as [?|Hin]; [done|]. by apply IH.
Qed.

(** ** Registering contracts *)

Lemma addContractHandler_cases bound contracts :
  (server.addContractHandler bound contracts).1 = contracts \/
  exists req,
    bound = Some req /\
    (server.address req ∉ server.Address <$> contracts) /\
    server.addContractHandler bound contracts =
      (contracts ++ [ {| server.Name := server.name req;
                         server.Address := server.address req;
                         server.StartBlock := server.start_block req;
                         server.LastBlock := 0;
                         server.IsActive := true |} ],
       server.StatusOK req).
Proof.
  destruct bound as [req|]; [|by left].
  unfold server.addContractHandler, server.Create. cbn.
  destruct (bool_decide (server.address req ∈ server.Address <$> contracts)) eqn:Hd.
  - by left.
  - right. exists req. apply bool_decide_eq_false in Hd. done.
Qed.

Lemma addContractHandler_ok bound contracts contracts' req :
  server.addContractHandler bound contracts = (contracts', server.StatusOK req) ->
  bound = Some req /\
  (server.address req ∉ server.Address <$> contracts) /\
  contracts' = contracts ++ [ {| server.Name := server.name req;
                                 server.Address := server.address req;
                                 server.StartBlock := server.start_block req;
                                 server.LastBlock := 0;
                                 server.IsActive := true |} ].
Proof.
  destruct bound as [r|]; [|done].
  unfold server.addContractHandler, server.Create. cbn.
  destruct (bool_decide (server.address r ∈ server.Address <$> contracts)) eqn:Hd;
    [done|].
  intros [= <- <-]. apply bool_decide_eq_false in Hd. done.
Qed.

Lemma addContractHandler_not_ok bound contracts :
  (forall req, (server.addContractHandler bound contracts).2 <> server.StatusOK req) ->
  (server.addContractHandler bound contracts).1 = contracts.
Proof.
  intros Hno.
  destruct (addContractHandler_cases bound contracts) as [?|(req & _ & _ & Heq)];
    [done|].
  destruct (Hno req). by rewrite Heq.
Qed.

(** X14.  The contracts table under [addContractHandler].  Over any
    sequence of requests every request gets one response, rows are only
    appended, exactly one row per 200 response, each new row has
    [LastBlock] 0 and [IsActive] true, and addresses that were distinct
    stay distinct.  A request repeated right after itself is answered 500
    and changes nothing. *)
Theorem X14_contracts_table_under_registration :
  (forall requests contracts,
     let contracts' := (server.serve requests contracts).1 in
     let responses := (server.serve requests contracts).2 in
     length responses = length requests /\
     contracts `prefix_of` contracts' /\
     length contracts' =
       (length contracts +
        length (List.filter
                  (fun r => match r with server.StatusOK _ => true | _ => false end)
                  responses))%nat /\
     (forall row, row ∈ contracts' ->
        row ∈ contracts \/ (server.LastBlock row = 0 /\ server.IsActive row = true)) /\
     (NoDup (server.Address <$> contracts) -> NoDup (server.Address <$> contracts'))) /\
  (forall req contracts,
     let contracts' := (server.addContractHandler (Some req) contracts).1 in
     server.addContractHandler (Some req) contracts'
       = (contracts', server.StatusInternalServerError)).
Proof.
  split.
  - induction requests as [|bound requests IH]; intros contracts.
    + cbn. repeat split; try done. intros row Hrow. by left.
    + cbn [server.serve].
      specialize (IH (server.addContractHandler bound contracts).1).
      destruct (server.addContractHandler bound contracts) as [c1 r] eqn:Hh.
      cbn [fst] in IH.
      destruct (server.serve requests c1) as [c2 rs]. cbn [fst snd] in IH |- *.
      destruct IH as (Hlen & Hpre & Hcount & Hrows & Hnd).
      destruct r as [req| |].
      * apply addContractHandler_ok in Hh as (-> & Hnew & ->).
        split; [cbn; lia|]. split; [|split; [|split]].
        -- etrans; [|exact Hpre]. by apply prefix_app_r.
        -- rewrite Hcount, length_app. cbn. lia.
        -- intros row Hrow. destruct (Hrows row Hrow) as [Hold|Hfresh]; [|by right].
           apply elem_of_app in Hold as [Hold|Hfresh]; [by left|].
           apply list_elem_of_singleton in Hfresh as ->. by right.
        -- intros Hdistinct. apply Hnd. rewrite fmap_app. apply NoDup_app.
           split; [done|]. split; [|apply NoDup_singleton].
           intros a Ha Hin. cbn in Hin. apply list_elem_of_singleton in Hin as ->.
           done.
      * assert (c1 = contracts) as ->.
        { rewrite <- (addContractHandler_not_ok bound contracts).
          - by rewrite Hh.
          - intros req. by rewrite Hh. }
        split; [cbn; lia|]. done.
      * assert (c1 = contracts) as ->.
        { rewrite <- (addContractHandler_not_ok bound contracts).
          - by rewrite Hh.
          - intros req. by rewrite Hh. }
        split; [cbn; lia|]. done.
  - intros req contracts contracts'. subst contracts'.
    assert (server.address req ∈
              server.Address <$> (server.addContractHandler (Some req) contracts).1)
      as Hin.
    { unfold server.addContractHandler, server.Create. cbn.
      destruct (bool_decide (server.address req ∈ server.Address <$> contracts))
        eqn:Hd; cbn.
      - by apply bool_decide_eq_true in Hd.
      - rewrite fmap_app. apply elem_of_app. right. cbn.
        by apply list_elem_of_singleton. }
    unfold server.addContractHandler at 1. unfold server.Create. cbn.
    by rewrite bool_decide_eq_true_2.
Qed.

(** ** Stopping the indexer *)

Lemma stops_closed n :
  lifecycle.stops n lifecycle.ChanClosed =
    match n with O => Some lifecycle.ChanClosed | S _ => None end.
Proof. by destruct n. Qed.

Lemma stops_open n :
  lifecycle.stops n lifecycle.ChanOpen =
    match n with
    | O => Some lifecycle.ChanOpen
    | S O => Some lifecycle.ChanClosed
    | S (S _) => None
    end.
Proof. destruct n as [|[|n]]; done. Qed.

(** X15.  [Start] never returns [nil].  Once the database is initialised
    it blocks on the stop channel for as long as [Stop] has not been
    called, and panics as soon as it has: the channel that [Stop] closed is
    closed a second time, by a second [Stop] or by [Start] itself. *)
Theorem X15_Start_never_returns_normally (before between : nat) :
  lifecycle.Start true before between <> lifecycle.StartReturned /\
  lifecycle.Start true before between =
    match before with
    | O => lifecycle.StartBlocked
    | S _ => lifecycle.StartPanicked
    end /\
  lifecycle.Start false before between = lifecycle.StartFailed.
Proof.
  assert (lifecycle.Start true before between =
            match before with
            | O => lifecycle.StartBlocked
            | S _ => lifecycle.StartPanicked
            end) as Hstart.
  { unfold lifecycle.Start. rewrite stops_open.
    destruct before as [|[|before]]; [done| |done].
    cbn [lifecycle.receive]. rewrite stops_closed. by destruct between. }
  split; [|done]. rewrite Hstart. by destruct before.
Qed.

(** ** Several transfers in one transaction *)



(** * More scenarios, run *)

Section MoreScenarios.

Import Scenario Examples.

Local Ltac each_tick :=
  let client := fresh "client" in
  let Hin := fresh "Hin" in
  intros client; intros;
  match goal with H : Tick client ∈ _ |- _ => rename H into Hin end;
  repeat (apply elem_of_cons in Hin as [Hin|Hin];
          [first [discriminate Hin | injection Hin as ->]|]);
  [..|by apply elem_of_nil in Hin].

Lemma X1_witness :
  gethcommon.FromHex (common.HashHex (types.TxHash transfer1)) = types.TxHash transfer1 /\
  types.TxHash transfer3 = replicate 32 xbb /\
  types.TxHash transfer1 = types.TxHash transfer2.
Proof.
  destruct X1_tx_hash_identifies_the_transaction as (Hback & Hinj & Hrows).
  split; [apply Hback|]. split.
  - apply Hinj. reflexivity.
  - apply (Hrows lowerHex usdc transfer1 transfer2 0 12). reflexivity.
Defined.

Lemma X2_witness :
  length (gethcommon.HexToAddress "0x1") = common.AddressLength /\
  gethcommon.HexToAddress (common.HashHex token) = token /\
  gethcommon.HexToAddress "usdc" = replicate 20 x00.
Proof.
  destruct X2_HexToAddress_total as (Hlen & Hback & Hzero).
  split; [apply Hlen|]. split.
  - apply Hback. reflexivity.
  - apply (Hzero "u"%char "sdc"%string). reflexivity.
Defined.

Lemma X3_witness :
  loadContractsFromConfig (viper.List [usdcEntry; tokenEntry "DAI" "0xb0" 7])
    = Some [contractOf "USDC" tokenHex 100; contractOf "DAI" "0xb0" 7].
Proof.
  destruct X3_loadContractsFromConfig_loads_every_entry as [_ Hload].
  apply (Hload [usdcEntry; tokenEntry "DAI" "0xb0" 7]
               [("USDC"%string, tokenHex, 100); ("DAI"%string, "0xb0"%string, 7)]).
  repeat constructor.
  - eexists. repeat split; reflexivity.
  - eexists. repeat split; reflexivity.
Defined.

Lemma X4_witness :
  loadContractsFromConfig (viper.Str "tokens") = None /\
  loadContractsFromConfig (viper.List ([usdcEntry] ++ viper.Map daiEntry :: [])) = None.
Proof.
  destruct X4_loadContractsFromConfig_panics as [Hiff Hmissing].
  split.
  - apply Hiff. exact I.
  - apply Hmissing. reflexivity.
Defined.

Lemma X5_witness :
  exists config,
    loadContractsFromConfig (viper.List [tokenEntry "USDC" tokenHex (-1)])
      = Some [config] /\
    StartBlock config = 2 ^ 64 + -1 /\
    (monitorContract lowerHex 50 10 config
       [Tick (node 250 [transfer1]); Tick (node 19000000 [transfer1])] empty).1.1
      = empty.
Proof.
  apply (X5_negative_start_block_is_never_reached lowerHex 50 10
           "USDC" tokenHex (-1)
           [Tick (node 250 [transfer1]); Tick (node 19000000 [transfer1])] empty).
  - lia.
  - each_tick; match goal with H : _ = Some _ |- _ => injection H as <- end; lia.
Defined.

Lemma X6_witness :
  exists printed st,
    monitorContract lowerHex 50 10 usdc
      [Tick silentNode; Tick (node 100 [transfer1]); Tick silentNode; Stop;
       Tick (node 90 [])] empty
      = (empty, printed, st) /\
    Forall (fun e => e = ErrBlockNumber) printed /\
    st <> InTick.
Proof.
  apply (X6_idle_ticks_leave_the_store_alone lowerHex 50 10 usdc).
  each_tick; vm_compute; (exact I || discriminate).
Defined.

Lemma X7_witness :
  let s' := (monitorContract lowerHex 50 10 usdc
               [Tick (node 250 [transfer1; transfer2; transfer3])] empty).1.1 in
  transactions empty `prefix_of` transactions s' /\ NoDup (known s').
Proof.
  intros s'.
  destruct (X7_rows_are_appended_and_stay_distinct lowerHex 50 10 usdc
              [Tick (node 250 [transfer1; transfer2; transfer3])] empty)
    as [Hprefix Hdistinct].
  split; [exact Hprefix|]. apply Hdistinct. constructor.
Defined.

Lemma X8_witness :
  let s' := (monitorContract lowerHex 50 10 usdc
               [Tick (node 250 [transfer1])] withOther).1.1 in
  block_progress s' !! "0xother"%string = block_progress withOther !! "0xother"%string /\
  getLastProcessedBlock lowerHex s' (replicate 20 xb0)
    = getLastProcessedBlock lowerHex withOther (replicate 20 xb0).
Proof.
  intros s'.
  destruct (X8_other_checkpoints_are_untouched lowerHex 50 10 usdc
              [Tick (node 250 [transfer1])] withOther) as [Hkeys Hlast].
  split.
  - apply Hkeys. vm_compute. discriminate.
  - apply Hlast. vm_compute. discriminate.
Defined.

Lemma X9_witness :
  let signals := [Tick (node 250 [transfer1; approval])] in
  let tx := transferRecord lowerHex usdc transfer1 (1700000000 + 12 * 120) in
  tx ∈ transactions empty \/
  (exists client fromBlock toBlock logs vLog blockTime,
     Tick client ∈ signals /\
     ethclient.FilterLogs client (transferQuery usdc fromBlock toBlock) = Some logs /\
     vLog ∈ logs /\
     wellShaped vLog /\
     ethclient.BlockByNumber client (int64 (types.BlockNumber vLog)) = Some blockTime /\
     tx = transferRecord lowerHex usdc vLog blockTime) /\
  models.ContractAddress tx = lowerHex (Address usdc) /\
  models.TokenName tx = Name usdc.
Proof.
  intros signals tx.
  apply (X9_rows_come_from_the_contract_s_logs lowerHex 50 10 usdc signals empty tx).
  vm_compute. apply elem_of_cons. left. reflexivity.
Defined.

Lemma X10_witness :
  let s' := (monitorContract lowerHex 0 10 usdc
               [Tick (node 250 []); Tick (node 240 [])] empty).1.1 in
  getLastProcessedBlock lowerHex s' (Address usdc)
    <= Z.max (getLastProcessedBlock lowerHex empty (Address usdc)) 250.
Proof.
  apply (X10_checkpoint_never_passes_the_chain_height lowerHex 0 10 usdc
           [Tick (node 250 []); Tick (node 240 [])] empty 250).
  each_tick; match goal with H : _ = Some _ |- _ => injection H as <- end; lia.
Defined.



Lemma X13_witness :
  monitorContract lowerHex 50 10 usdc
    ([Tick (deafNode 250)] ++ Stop :: [Tick (node 250 [transfer1])]) empty
    = monitorContract lowerHex 50 10 usdc ([Tick (deafNode 250)] ++ [Stop]) empty /\
  Stop ∉ [Tick (node 250 [transfer1]); Tick silentNode].
Proof.
  destruct (X13_runs_compose lowerHex 50 10 usdc) as (_ & Hstop & Hwaiting).
  split; [apply Hstop|].
  apply (Hwaiting _ empty). vm_compute. reflexivity.
Defined.

Lemma X14_witness :
  let requests := [Some addUsdc; None; Some addUsdc; Some addDai] in
  let contracts' := (server.serve requests []).1 in
  let responses := (server.serve requests []).2 in
  length responses = length requests /\
  length contracts' =
    (length (@nil server.Contract) +
     length (List.filter
               (fun r => match r with server.StatusOK _ => true | _ => false end)
               responses))%nat /\
  NoDup (server.Address <$> contracts').
Proof.
  intros requests contracts' responses.
  destruct X14_contracts_table_under_registration as [Hserve _].
  destruct (Hserve requests []) as (Hlen & _ & Hcount & _ & Hdistinct).
  split; [exact Hlen|]. split; [exact Hcount|].
  apply Hdistinct. constructor.
Defined.

Lemma X15_witness :
  lifecycle.Start true 1 0 = lifecycle.StartPanicked /\
  lifecycle.Start true 0 3 = lifecycle.StartBlocked.
Proof.
  split.
  - apply (X15_Start_never_returns_normally 1 0).
  - apply (X15_Start_never_returns_normally 0 3).
Defined.


End MoreScenarios.
